(** * Request handlers of the voice-platform back office (server/src/handlers)

    A shallow embedding of the tRPC handlers over the relational store they
    reach through drizzle.  Every table is a list of rows in insertion order
    together with its [serial] sequence; a handler is a computation in a small
    state-and-error monad over the whole store.  The instant returned by
    [new Date()] and by the column default [defaultNow()] is an argument
    [now] of each handler. *)

From Stdlib Require Import ZArith List String Ascii Bool Lia QArith Qabs SpecFloat
  Permutation Sorted.
Import ListNotations.
Open Scope string_scope.
Open Scope Z_scope.

(** Instants (JS [Date], postgres [timestamp]) as milliseconds. *)
Definition instant := Z.

(** ** Rows (db/schema.ts) *)

Record SubscriptionPlan := mkPlan {
  sp_id : Z;
  sp_name : string;
  sp_description : option string;
  (** text of the [numeric(10,2)] column; its decimal conversion is not modelled *)
  sp_price : string;
  sp_max_api_keys : option Z;
  sp_max_monthly_calls : option Z;
  sp_created_at : instant }.

Record User := mkUser {
  u_id : Z;
  u_email : string;
  u_name : string;
  u_created_at : instant;
  u_updated_at : instant;
  u_subscription_plan_id : option Z }.

Record ApiKey := mkApiKey {
  ak_id : Z;
  ak_user_id : Z;
  ak_key_hash : string;
  ak_name : string;
  ak_is_active : bool;
  ak_created_at : instant;
  ak_last_used_at : option instant }.

Record Voice := mkVoice {
  v_id : Z;
  v_name : string;
  v_identifier : string;
  v_description : option string;
  v_created_at : instant }.

Record CallSession := mkCallSession {
  cs_id : Z;
  cs_twilio_call_id : string;
  cs_user_id : Z;
  cs_start_time : instant;
  cs_end_time : option instant;
  cs_created_at : instant }.

Inductive TurnRole := RoleUser | RoleAssistant | RoleTool.

Record Turn := mkTurn {
  t_id : Z;
  t_call_session_id : Z;
  t_role : TurnRole;
  t_text : option string;
  t_latency_ms : option Z;
  t_created_at : instant }.

(** A table: its rows in insertion order and the next value of its
    [serial('id')] sequence. *)
Record Table (A : Type) := mkTable { rows : list A; seq : Z }.
Arguments mkTable {A} _ _.
Arguments rows {A} _.
Arguments seq {A} _.

Record Store := mkStore {
  subscription_plans : Table SubscriptionPlan;
  users : Table User;
  api_keys : Table ApiKey;
  voices : Table Voice;
  call_sessions : Table CallSession;
  turns : Table Turn }.

(** A fresh database: every sequence starts at 1. *)
Definition empty_store : Store :=
  mkStore (mkTable [] 1) (mkTable [] 1) (mkTable [] 1)
          (mkTable [] 1) (mkTable [] 1) (mkTable [] 1).

Definition set_subscription_plans (t : Table SubscriptionPlan) (st : Store) : Store :=
  mkStore t (users st) (api_keys st) (voices st) (call_sessions st) (turns st).
Definition set_users (t : Table User) (st : Store) : Store :=
  mkStore (subscription_plans st) t (api_keys st) (voices st) (call_sessions st) (turns st).
Definition set_api_keys (t : Table ApiKey) (st : Store) : Store :=
  mkStore (subscription_plans st) (users st) t (voices st) (call_sessions st) (turns st).
Definition set_voices (t : Table Voice) (st : Store) : Store :=
  mkStore (subscription_plans st) (users st) (api_keys st) t (call_sessions st) (turns st).
Definition set_call_sessions (t : Table CallSession) (st : Store) : Store :=
  mkStore (subscription_plans st) (users st) (api_keys st) (voices st) t (turns st).
Definition set_turns (t : Table Turn) (st : Store) : Store :=
  mkStore (subscription_plans st) (users st) (api_keys st) (voices st) (call_sessions st) t.

(** ** Errors

    The handlers throw [Error]s whose message names the failure; the store
    raises its own errors on a violated constraint.  The kinds below are
    those of the messages. *)
Inductive error :=
| NotFoundError          (* "... not found", "... does not exist" *)
| ConflictError          (* "... already exists", "... is already in use" *)
| InvalidStateError      (* "... is already ended", "Cannot add turn to ended ..." *)
| QuotaExceededError     (* "API key limit reached. Maximum allowed: N" *)
| UniqueViolation        (* store: duplicate key value violates unique constraint *)
| NoValuesToSet          (* drizzle: update with an empty [set] *)
| OutOfRangeError        (* store: value ... is out of range for type integer *)
| InvalidTextRepresentation (* store: invalid input syntax for type numeric *)
| NumericOverflow.       (* store: numeric field overflow *)

(** ** The state-and-error monad *)

Inductive result (A : Type) := Ok (a : A) | Err (e : error).
Arguments Ok {A} _.
Arguments Err {A} _.

Definition M (A : Type) := Store -> result A * Store.

Definition ret {A} (a : A) : M A := fun st => (Ok a, st).
Definition throw {A} (e : error) : M A := fun st => (Err e, st).
Definition bind {A B} (m : M A) (k : A -> M B) : M B :=
  fun st => match m st with
            | (Ok a, st') => k a st'
            | (Err e, st') => (Err e, st')
            end.

Notation "x <- m ;; k" := (bind m (fun x => k))
  (at level 61, m at next level, right associativity).
Notation "m ;;; k" := (bind m (fun _ => k))
  (at level 61, right associativity).

(** ** The query layer *)

(** [db.select().from(t).where(p)], once the parameters of [p] are bound
    (see [param_int4] below). *)
Definition select {A} (get : Store -> Table A) (p : A -> bool) : M (list A) :=
  fun st => (Ok (filter p (rows (get st))), st).

(** [db.insert(t).values(..).returning()]: the sequence is advanced before
    the constraints are checked, so a rejected insert still consumes an id.
    [clash r r'] holds when [r] and [r'] agree on the primary key or on a
    unique column. *)
Definition insert {A} (get : Store -> Table A) (set : Table A -> Store -> Store)
    (clash : A -> A -> bool) (mk : Z -> A) : M A :=
  fun st =>
    let t := get st in
    let r := mk (seq t) in
    if existsb (clash r) (rows t)
    then (Err UniqueViolation, set (mkTable (rows t) (seq t + 1)) st)
    else (Ok r, set (mkTable (rows t ++ [r]) (seq t + 1)) st).

Definition count {A} (p : A -> bool) (l : list A) : nat := List.length (filter p l).

(** [db.update(t).set(..).where(p).returning()]: every row satisfying [p] is
    rewritten by [f]; the statement is rejected when an updated row then
    shares a unique column ([same]) with another row. *)
Definition update {A} (get : Store -> Table A) (set : Table A -> Store -> Store)
    (same : A -> A -> bool) (p : A -> bool) (f : A -> A) : M (list A) :=
  fun st =>
    let t := get st in
    let rows' := map (fun r => if p r then f r else r) (rows t) in
    let updated := map f (filter p (rows t)) in
    if existsb (fun u => Nat.ltb 1 (count (same u) rows')) updated
    then (Err UniqueViolation, st)
    else (Ok updated, set (mkTable rows' (seq t)) st).

(** [result[0]] of a [returning()] list: [undefined] when it is empty. *)
Definition first {A} (l : list A) : option A :=
  match l with [] => None | x :: _ => Some x end.

Definition opt_eqb (o o' : option Z) : bool :=
  match o, o' with
  | Some a, Some b => a =? b
  | None, None => true
  | _, _ => false
  end.

(** JS truthiness of a nullable number ([if (x)]): [null] and [0] are falsy. *)
Definition truthy_num (o : option Z) : bool :=
  match o with Some n => negb (n =? 0) | None => false end.

(** JS truthiness of a string ([if (s)]): only [""] is falsy. *)
Definition truthy_string (s : string) : bool := negb (String.eqb s "").

(** ** Parameters bound to typed columns

    drizzle sends every value of a statement as a parameter, which the store
    converts to the type of its column (or of the column it is compared
    with) before running the statement: a value the conversion refuses fails
    the statement before any row is read, written or numbered. *)

(** [integer] (int4): [int4in] refuses the values outside the 32-bit range
    ("value ... is out of range for type integer").  The schema's
    [z.number()] accepts them; non-integral numbers are not modelled (the
    model's numbers are integers). *)
Definition int4_ok (z : Z) : bool := (-2147483648 <=? z) && (z <=? 2147483647).

Definition param_int4 (z : Z) : M unit :=
  if int4_ok z then ret tt else throw OutOfRangeError.

Definition param_int4_opt (o : option Z) : M unit :=
  match o with Some z => param_int4 z | None => ret tt end.

(** [createUser], [updateUser], [createSubscriptionPlan], [createCallSession]
    and [createTurn] bind their integer inputs with [param_int4] below.
    [createApiKey], [updateApiKey], [endCallSession] and the read queries
    bind one input id, compared with the id column of a table; that bind is
    left out of their definitions, which therefore agree with the program on
    the ids in range (every id a [serial] column holds), and the statements
    below about an id that may be out of range assume [int4_ok] of it. *)

(** *** Decimal texts

    The digits of a text, as [numeric_in] and JavaScript read them. *)
Definition digit_value (c : ascii) : option Z :=
  let n := Z.of_N (N_of_ascii c) in
  if (48 <=? n) && (n <=? 57) then Some (n - 48) else None.

Definition digit_char (d : Z) : ascii := ascii_of_N (Z.to_N (48 + d)).

(** The leading digits of [l], read onto [acc]: the value, [n] plus the
    number of digits read, and the rest of the text. *)
Fixpoint take_digits (l : list ascii) (acc n : Z) : Z * Z * list ascii :=
  match l with
  | c :: r =>
      match digit_value c with
      | Some d => take_digits r (acc * 10 + d) (n + 1)
      | None => (acc, n, l)
      end
  | [] => (acc, n, [])
  end.

Definition sign_of (l : list ascii) : Z * list ascii :=
  match l with
  | "-"%char :: r => (-1, r)
  | "+"%char :: r => (1, r)
  | _ => (1, l)
  end.

(** A decimal literal [[+|-] digits [. digits] [(e|E) [+|-] digits]], with
    at least one digit before the exponent, as the pair [(m, e)] of its
    value [m * 10^e]. *)
Definition parse_decimal (l : list ascii) : option (Z * Z) :=
  let '(sg, l1) := sign_of l in
  let '(a, na, l2) := take_digits l1 0 0 in
  let '(m, nb, l3) :=
    match l2 with
    | "."%char :: r => take_digits r a 0
    | _ => (a, 0, l2)
    end in
  if na + nb =? 0 then None
  else
    match l3 with
    | [] => Some (sg * m, - nb)
    | c :: r =>
        if Ascii.eqb c "e" || Ascii.eqb c "E" then
          let '(se, r1) := sign_of r in
          let '(x, nx, r2) := take_digits r1 0 0 in
          match r2 with
          | [] => if nx =? 0 then None else Some (sg * m, se * x - nb)
          | _ :: _ => None
          end
        else None
    end.

(** The rational [m * 10^e]. *)
Definition dec_Q (m e : Z) : Q :=
  if 0 <=? e then inject_Z (m * 10 ^ e) else m # Z.to_pos (10 ^ (- e)).

(** Values of postgres' [numeric]. *)
Inductive numeric := NumNaN | NumInf (neg : bool) | NumDec (m e : Z).

(** [numeric_in] on the texts [Number.prototype.toString] produces: the
    special values as JavaScript spells them, and decimal literals. *)
Definition numeric_in (s : string) : option numeric :=
  if String.eqb s "NaN" then Some NumNaN
  else if String.eqb s "Infinity" then Some (NumInf false)
  else if String.eqb s "-Infinity" then Some (NumInf true)
  else match parse_decimal (list_ascii_of_string s) with
       | Some (m, e) => Some (NumDec m e)
       | None => None
       end.

(** Binding [input.price.toString()] to the [numeric] parameter ("invalid
    input syntax for type numeric"). *)
Definition param_numeric (s : string) : M numeric :=
  match numeric_in s with
  | Some v => ret v
  | None => throw InvalidTextRepresentation
  end.

(** [m * 10^e] rounded to two decimals, half away from zero, in cents (the
    rounding of [numeric]'s [round_var]). *)
Definition round_cents (m e : Z) : Z :=
  if 0 <=? e + 2 then m * 10 ^ (e + 2)
  else let d := 10 ^ (- (e + 2)) in Z.sgn m * ((Z.abs m * 2 + d) / (2 * d)).

(** The decimal digits of a positive integer, least significant first. *)
Fixpoint digits_rev (fuel : nat) (z : Z) : list ascii :=
  match fuel with
  | O => []
  | S f => if z <=? 0 then [] else digit_char (z mod 10) :: digits_rev f (z / 10)
  end.

(** The decimal digits of a positive integer ([Z.log2 z + 1] digits are
    more than enough). *)
Definition decimal_digits (z : Z) : list ascii :=
  rev (digits_rev (S (Z.to_nat (Z.log2 z))) z).

(** [numeric_out] of a value of scale 2, given in cents. *)
Definition cents_text (c : Z) : string :=
  let a := Z.abs c in
  string_of_list_ascii
    ((if c <? 0 then ["-"%char] else []) ++
     (if a / 100 =? 0 then ["0"%char] else decimal_digits (a / 100)) ++
     ["."%char; digit_char (a mod 100 / 10); digit_char (a mod 10)])%list.

(** The type modifier of [numeric(10, 2)], applied to the parameter when
    the statement is planned: the value is rounded to two decimals and may
    have at most 8 digits before the point ("numeric field overflow"); the
    column holds, and [returning()] gives back, its text. *)
Definition numeric_10_2 (v : numeric) : M string :=
  match v with
  | NumNaN => ret "NaN"
  | NumInf _ => throw NumericOverflow
  | NumDec m e =>
      let c := round_cents m e in
      if Z.abs c <? 10 ^ 10 then ret (cents_text c) else throw NumericOverflow
  end.

(** *** JavaScript numbers

    A JavaScript number is an IEEE-754 binary64 value ([spec_float] with 53
    bits of precision and [emax = 1024]).  The number nearest to a rational
    (ties to even) is the binary64 quotient of its numerator by its
    denominator, both exact. *)
Definition round_to_double (q : Q) : spec_float :=
  let r := Qred q in
  match Qnum r with
  | Z0 => S754_zero false
  | Zpos p => SFdiv 53 1024 (S754_finite false p 0) (S754_finite false (Qden r) 0)
  | Zneg p => SFdiv 53 1024 (S754_finite true p 0) (S754_finite false (Qden r) 0)
  end.

(** [parseFloat] on a whole decimal literal or a special value (the texts
    a [numeric] column returns). *)
Definition parseFloat (s : string) : spec_float :=
  match parse_decimal (list_ascii_of_string s) with
  | Some (m, e) => round_to_double (dec_Q m e)
  | None =>
      if String.eqb s "Infinity" then S754_infinity false
      else if String.eqb s "-Infinity" then S754_infinity true
      else S754_nan
  end.

(** ** Inputs (schema.ts); [None] is [null] or an omitted optional field *)

Record CreateUserInput := mkCreateUserInput {
  cu_email : string; cu_name : string; cu_subscription_plan_id : option Z }.

Record UpdateUserInput := mkUpdateUserInput {
  uu_id : Z;
  uu_email : option string;
  uu_name : option string;
  (** [z.number().nullable().optional()]: [None] omitted, [Some None] null *)
  uu_subscription_plan_id : option (option Z) }.

Record CreateSubscriptionPlanInput := mkCreateSubscriptionPlanInput {
  csp_name : string;
  csp_description : option string;
  (** [input.price.toString()] *)
  csp_price : string;
  csp_max_api_keys : option Z;
  csp_max_monthly_calls : option Z }.

Record CreateApiKeyInput := mkCreateApiKeyInput {
  cak_user_id : Z; cak_key_hash : string; cak_name : string }.

Record UpdateApiKeyInput := mkUpdateApiKeyInput {
  uak_id : Z; uak_name : option string; uak_is_active : option bool }.

Record CreateVoiceInput := mkCreateVoiceInput {
  cv_name : string; cv_identifier : string; cv_description : option string }.

Record CreateCallSessionInput := mkCreateCallSessionInput {
  ccs_twilio_call_id : string; ccs_user_id : Z; ccs_start_time : instant }.

Record EndCallSessionInput := mkEndCallSessionInput {
  ecs_id : Z; ecs_end_time : instant }.

Record CreateTurnInput := mkCreateTurnInput {
  ct_call_session_id : Z; ct_role : TurnRole;
  ct_text : option string; ct_latency_ms : option Z }.

(** ** Unique columns (db/schema.ts) *)

Definition plan_clash (r r' : SubscriptionPlan) : bool := sp_id r =? sp_id r'.
Definition user_same_email (r r' : User) : bool := String.eqb (u_email r) (u_email r').
Definition user_clash (r r' : User) : bool := (u_id r =? u_id r') || user_same_email r r'.
Definition api_key_clash (r r' : ApiKey) : bool := ak_id r =? ak_id r'.
Definition voice_clash (r r' : Voice) : bool :=
  (v_id r =? v_id r') || String.eqb (v_identifier r) (v_identifier r').
Definition session_same_twilio (r r' : CallSession) : bool :=
  String.eqb (cs_twilio_call_id r) (cs_twilio_call_id r').
Definition session_clash (r r' : CallSession) : bool :=
  (cs_id r =? cs_id r') || session_same_twilio r r'.
Definition turn_clash (r r' : Turn) : bool := t_id r =? t_id r'.
Definition no_unique_column {A} (_ _ : A) : bool := false.

(** ** Handlers *)

(** unnamed/part_014: [createUser] *)
Definition createUser (input : CreateUserInput) (now : instant) : M User :=
  (match cu_subscription_plan_id input with
   | Some pid =>
       param_int4 pid ;;;
       existingPlan <- select subscription_plans (fun p => sp_id p =? pid) ;;
       match existingPlan with
       | [] => throw NotFoundError
       | _ => ret tt
       end
   | None => ret tt
   end) ;;;
  (* the insert binds the plan id again, already checked above *)
  insert users set_users user_clash
    (fun id => mkUser id (cu_email input) (cu_name input) now now
                      (cu_subscription_plan_id input)).

(** server/src/handlers/create_user.ts: the placeholder [createUser] that the
    router imports. *)
Definition createUser_placeholder (input : CreateUserInput) (now : instant) : M User :=
  ret (mkUser 1 (cu_email input) (cu_name input) now now
              (cu_subscription_plan_id input)).

(** The [updateData] object of [updateUser]: [updated_at] and the provided
    fields. *)
Definition apply_user_update (input : UpdateUserInput) (now : instant) (u : User) : User :=
  mkUser (u_id u)
         (match uu_email input with Some e => e | None => u_email u end)
         (match uu_name input with Some n => n | None => u_name u end)
         (u_created_at u)
         now
         (match uu_subscription_plan_id input with
          | Some p => p
          | None => u_subscription_plan_id u
          end).

(** unnamed/part_009 (second declaration): [updateUser] *)
Definition updateUser (input : UpdateUserInput) (now : instant) : M (option User) :=
  param_int4 (uu_id input) ;;;
  existingUser <- select users (fun u => u_id u =? uu_id input) ;;
  match existingUser with
  | [] => throw NotFoundError
  | _ =>
      (match uu_email input with
       | Some e =>
           if truthy_string e then
             emailExists <- select users
               (fun u => String.eqb (u_email u) e && negb (u_id u =? uu_id input)) ;;
             match emailExists with
             | [] => ret tt
             | _ => throw ConflictError
             end
           else ret tt
       | None => ret tt
       end) ;;;
      (* [subscription_plan_id] is bound to its integer column by the update *)
      param_int4_opt (match uu_subscription_plan_id input with Some p => p | None => None end) ;;;
      result <- update users set_users user_same_email
                  (fun u => u_id u =? uu_id input) (apply_user_update input now) ;;
      ret (first result)
  end.

(** The plan [createSubscriptionPlan] and [getSubscriptionPlans] return:
    the row with [price: parseFloat(plan.price)]. *)
Record SubscriptionPlanOut := mkPlanOut {
  spo_id : Z;
  spo_name : string;
  spo_description : option string;
  spo_price : spec_float;
  spo_max_api_keys : option Z;
  spo_max_monthly_calls : option Z;
  spo_created_at : instant }.

Definition plan_out (P : SubscriptionPlan) : SubscriptionPlanOut :=
  mkPlanOut (sp_id P) (sp_name P) (sp_description P) (parseFloat (sp_price P))
            (sp_max_api_keys P) (sp_max_monthly_calls P) (sp_created_at P).

(** unnamed/part_008: [createSubscriptionPlan].  The insert binds its
    parameters in column order (price, max_api_keys, max_monthly_calls) and
    then applies the column's [numeric(10, 2)] to the price. *)
Definition createSubscriptionPlan (input : CreateSubscriptionPlanInput) (now : instant)
    : M SubscriptionPlanOut :=
  existingPlan <- select subscription_plans (fun p => String.eqb (sp_name p) (csp_name input)) ;;
  match existingPlan with
  | _ :: _ => throw ConflictError
  | [] =>
      price <- param_numeric (csp_price input) ;;
      param_int4_opt (csp_max_api_keys input) ;;;
      param_int4_opt (csp_max_monthly_calls input) ;;;
      stored <- numeric_10_2 price ;;
      subscriptionPlan <- insert subscription_plans set_subscription_plans plan_clash
        (fun id => mkPlan id (csp_name input) (csp_description input) stored
                          (csp_max_api_keys input) (csp_max_monthly_calls input) now) ;;
      ret (plan_out subscriptionPlan)
  end.

(** The quota check of [createApiKey] (lines 18-40). *)
Definition check_api_key_quota (input : CreateApiKeyInput) (userWithPlan : User) : M unit :=
  if truthy_num (u_subscription_plan_id userWithPlan) then
    let pid := match u_subscription_plan_id userWithPlan with Some p => p | None => 0 end in
    subscriptionPlan <- select subscription_plans (fun p => sp_id p =? pid) ;;
    match subscriptionPlan with
    | plan :: _ =>
        match sp_max_api_keys plan with
        | Some max =>
            existingApiKeys <- select api_keys (fun k => ak_user_id k =? cak_user_id input) ;;
            let activeApiKeysCount := Z.of_nat (count ak_is_active existingApiKeys) in
            if activeApiKeysCount >=? max then throw QuotaExceededError else ret tt
        | None => ret tt
        end
    | [] => ret tt
    end
  else ret tt.

(** server/src/handlers/create_api_key.ts: [createApiKey] *)
Definition createApiKey (input : CreateApiKeyInput) (now : instant) : M ApiKey :=
  user <- select users (fun u => u_id u =? cak_user_id input) ;;
  match user with
  | [] => throw NotFoundError
  | userWithPlan :: _ =>
      check_api_key_quota input userWithPlan ;;;
      insert api_keys set_api_keys api_key_clash
        (fun id => mkApiKey id (cak_user_id input) (cak_key_hash input) (cak_name input)
                            true now None)
  end.

(** server/src/handlers/update_api_key.ts: [updateApiKey] *)
Definition updateApiKey (input : UpdateApiKeyInput) (now : instant) : M (option ApiKey) :=
  existingApiKeys <- select api_keys (fun k => ak_id k =? uak_id input) ;;
  match existingApiKeys with
  | [] => throw NotFoundError
  | _ =>
      match uak_name input, uak_is_active input with
      | None, None => throw NoValuesToSet
      | _, _ =>
          result <- update api_keys set_api_keys no_unique_column
            (fun k => ak_id k =? uak_id input)
            (fun k => mkApiKey (ak_id k) (ak_user_id k) (ak_key_hash k)
                        (match uak_name input with Some n => n | None => ak_name k end)
                        (match uak_is_active input with Some b => b | None => ak_is_active k end)
                        (ak_created_at k) (ak_last_used_at k)) ;;
          ret (first result)
      end
  end.

(** unnamed/part_007: [createVoice] *)
Definition createVoice (input : CreateVoiceInput) (now : instant) : M Voice :=
  insert voices set_voices voice_clash
    (fun id => mkVoice id (cv_name input) (cv_identifier input) (cv_description input) now).

(** server/src/handlers/create_call_session.ts: [createCallSession] *)
Definition createCallSession (input : CreateCallSessionInput) (now : instant) : M CallSession :=
  param_int4 (ccs_user_id input) ;;;
  userExists <- select users (fun u => u_id u =? ccs_user_id input) ;;
  match userExists with
  | [] => throw NotFoundError
  | _ =>
      insert call_sessions set_call_sessions session_clash
        (fun id => mkCallSession id (ccs_twilio_call_id input) (ccs_user_id input)
                                 (ccs_start_time input) None now)
  end.

(** unnamed/part_010: [endCallSession] *)
Definition endCallSession (input : EndCallSessionInput) (now : instant) : M (option CallSession) :=
  existingSessions <- select call_sessions (fun s => cs_id s =? ecs_id input) ;;
  match existingSessions with
  | [] => throw NotFoundError
  | existingSession :: _ =>
      match cs_end_time existingSession with
      | Some _ => throw InvalidStateError
      | None =>
          result <- update call_sessions set_call_sessions session_same_twilio
            (fun s => cs_id s =? ecs_id input)
            (fun s => mkCallSession (cs_id s) (cs_twilio_call_id s) (cs_user_id s)
                        (cs_start_time s) (Some (ecs_end_time input)) (cs_created_at s)) ;;
          ret (first result)
      end
  end.

(** unnamed/part_011: [createTurn] *)
Definition createTurn (input : CreateTurnInput) (now : instant) : M Turn :=
  param_int4 (ct_call_session_id input) ;;;
  callSession <- select call_sessions (fun s => cs_id s =? ct_call_session_id input) ;;
  match callSession with
  | [] => throw NotFoundError
  | s :: _ =>
      match cs_end_time s with
      | Some _ => throw InvalidStateError
      | None =>
          param_int4_opt (ct_latency_ms input) ;;;
          insert turns set_turns turn_clash
            (fun id => mkTurn id (ct_call_session_id input) (ct_role input)
                              (ct_text input) (ct_latency_ms input) now)
      end
  end.

(** [ORDER BY created_at ASC]: postgres returns the selected rows sorted by
    [created_at] and leaves the order of equal timestamps unspecified, so the
    query denotes a relation between the selected rows and its answer. *)
Definition order_by_created_at_asc (selected answer : list Turn) : Prop :=
  Permutation selected answer /\
  Sorted (fun a b => t_created_at a <= t_created_at b) answer.

(** server/src/handlers/create_api_key.ts (second declaration):
    [getTurnsByCallSession], as the relation between a store and the
    possible outcomes; it issues only selects. *)
Definition getTurnsByCallSession (callSessionId : Z) (st : Store) (out : result (list Turn)) : Prop :=
  match filter (fun s => cs_id s =? callSessionId) (rows (call_sessions st)) with
  | [] => out = Err NotFoundError
  | _ :: _ =>
      exists answer, out = Ok answer /\
        order_by_created_at_asc
          (filter (fun t => t_call_session_id t =? callSessionId) (rows (turns st))) answer
  end.

(** ** The system: every mutating request the router dispatches *)

Inductive Request :=
| ReqCreateUser (i : CreateUserInput)
| ReqUpdateUser (i : UpdateUserInput)
| ReqCreateSubscriptionPlan (i : CreateSubscriptionPlanInput)
| ReqCreateApiKey (i : CreateApiKeyInput)
| ReqUpdateApiKey (i : UpdateApiKeyInput)
| ReqCreateVoice (i : CreateVoiceInput)
| ReqCreateCallSession (i : CreateCallSessionInput)
| ReqEndCallSession (i : EndCallSessionInput)
| ReqCreateTurn (i : CreateTurnInput).

(** The store after handling a request at instant [now]. *)
Definition exec (r : Request) (now : instant) (st : Store) : Store :=
  match r with
  | ReqCreateUser i => snd (createUser i now st)
  | ReqUpdateUser i => snd (updateUser i now st)
  | ReqCreateSubscriptionPlan i => snd (createSubscriptionPlan i now st)
  | ReqCreateApiKey i => snd (createApiKey i now st)
  | ReqUpdateApiKey i => snd (updateApiKey i now st)
  | ReqCreateVoice i => snd (createVoice i now st)
  | ReqCreateCallSession i => snd (createCallSession i now st)
  | ReqEndCallSession i => snd (endCallSession i now st)
  | ReqCreateTurn i => snd (createTurn i now st)
  end.

Fixpoint exec_all (rs : list (Request * instant)) (st : Store) : Store :=
  match rs with
  | [] => st
  | (r, now) :: rs' => exec_all rs' (exec r now st)
  end.

Inductive reachable : Store -> Prop :=
| reachable_empty : reachable empty_store
| reachable_exec st r now : reachable st -> reachable (exec r now st).

(** ** Predicates used by the statements *)

Definition find_user (st : Store) (id : Z) : option User :=
  first (filter (fun u => u_id u =? id) (rows (users st))).
Definition find_plan (st : Store) (id : Z) : option SubscriptionPlan :=
  first (filter (fun p => sp_id p =? id) (rows (subscription_plans st))).
Definition find_session (st : Store) (id : Z) : option CallSession :=
  first (filter (fun s => cs_id s =? id) (rows (call_sessions st))).

(** The [subscription_plan_id] an [updateUser] input sets is null or in
    the range of the column. *)
Definition plan_param_ok (i : UpdateUserInput) : bool :=
  match uu_subscription_plan_id i with Some (Some p) => int4_ok p | _ => true end.

(** The latency a [createTurn] input gives is null or in the range of the
    column. *)
Definition latency_ok (i : CreateTurnInput) : bool :=
  match ct_latency_ms i with Some l => int4_ok l | None => true end.

(** The binds of [createSubscriptionPlan]'s insert, and the text its
    [numeric(10, 2)] column receives; they depend on the input only. *)
Definition plan_params (i : CreateSubscriptionPlanInput) : result string :=
  fst ((price <- param_numeric (csp_price i) ;;
        param_int4_opt (csp_max_api_keys i) ;;;
        param_int4_opt (csp_max_monthly_calls i) ;;;
        numeric_10_2 price) empty_store).

(** The number of a user's keys with [is_active = true]. *)
Definition active_key_count (st : Store) (uid : Z) : Z :=
  Z.of_nat (count (fun k => (ak_user_id k =? uid) && ak_is_active k) (rows (api_keys st))).

(** ** Invariants of reachable stores *)

(** The ids of a table come from its [serial] sequence: positive and below
    the next value. *)
Definition serial_ok {A} (id : A -> Z) (t : Table A) : Prop :=
  0 < seq t /\ Forall (fun r => 0 < id r < seq t) (rows t) /\ NoDup (map id (rows t)).

(** The unique constraint on [users.email]. *)
Definition emails_unique (l : list User) : Prop :=
  forall r, In r l -> (count (user_same_email r) l <= 1)%nat.

Definition wf_store (st : Store) : Prop :=
  serial_ok sp_id (subscription_plans st) /\ serial_ok u_id (users st) /\
  serial_ok ak_id (api_keys st) /\ serial_ok cs_id (call_sessions st) /\
  serial_ok t_id (turns st) /\ emails_unique (rows (users st)).

(** ** Scenario stores *)

(** Scenario 1 of the spec: plan "Basic" with [max_api_keys = 2] and a user
    on it. *)
Definition basic_plan : CreateSubscriptionPlanInput :=
  mkCreateSubscriptionPlanInput "Basic" None "9.99" (Some 2) None.

Definition quota_store : Store :=
  exec_all [(ReqCreateSubscriptionPlan basic_plan, 10);
            (ReqCreateUser (mkCreateUserInput "u@example.com" "U" (Some 1)), 11)]
           empty_store.

Definition key_input (kh : string) : CreateApiKeyInput := mkCreateApiKeyInput 1 kh "key".

(** [createApiKey] called for user [uid] with each [(key_hash, name, now)]
    of [ks] in turn. *)
Fixpoint create_keys (uid : Z) (ks : list (string * string * instant)) (st : Store)
    : list (result ApiKey) * Store :=
  match ks with
  | [] => ([], st)
  | (kh, nm, now) :: ks' =>
      let (r, st1) := createApiKey (mkCreateApiKeyInput uid kh nm) now st in
      let (rs, st2) := create_keys uid ks' st1 in
      (r :: rs, st2)
  end.

(** Scenario 3 of the spec: a session of user 1, ended at instant 40. *)
Definition ended_store : Store :=
  exec_all [(ReqCreateCallSession (mkCreateCallSessionInput "CA1" 1 30), 31);
            (ReqEndCallSession (mkEndCallSessionInput 1 40), 41)] quota_store.

(** Scenario 4 of the spec: an open session of user 1. *)
Definition open_store : Store :=
  exec_all [(ReqCreateCallSession (mkCreateCallSessionInput "CA1" 1 30), 31)] quota_store.

(** Scenario 6 of the spec: two users. *)
Definition two_users_store : Store :=
  exec_all [(ReqCreateUser (mkCreateUserInput "other@example.com" "V" None), 12)] quota_store.

(** Two turns of session 1 recorded at the same instant, as the rows of
    the test "should handle turns with nullable fields correctly"
    (get_turns_by_call_session.test.ts), whose single insert gives both the
    same [created_at]. *)
Definition tie_store : Store :=
  exec_all [(ReqCreateTurn (mkCreateTurnInput 1 RoleUser None None), 50);
            (ReqCreateTurn (mkCreateTurnInput 1 RoleAssistant (Some "Valid text") (Some 250)), 50)]
           open_store.

(** ** Orders on turns *)

(** By [created_at], ties broken by id, i.e. by insertion order. *)
Definition created_then_id (a b : Turn) : Prop :=
  t_created_at a < t_created_at b \/ (t_created_at a = t_created_at b /\ t_id a < t_id b).



(** ** The other queries of the router *)

(** unnamed/part_013: [getApiKeysByUser].  The select has no [ORDER BY]:
    the store answers the selected rows in an order of its choosing. *)
Definition getApiKeysByUser (userId : Z) (st : Store) (out : result (list ApiKey)) : Prop :=
  match filter (fun u => u_id u =? userId) (rows (users st)) with
  | [] => out = Err NotFoundError
  | _ :: _ =>
      exists answer, out = Ok answer /\
        Permutation (filter (fun k => ak_user_id k =? userId) (rows (api_keys st))) answer
  end.

(** server/src/handlers/get_call_sessions_by_user.ts: [getCallSessionsByUser]
    (the user select carries [.limit(1)]; no [ORDER BY] on the sessions). *)
Definition getCallSessionsByUser (userId : Z) (st : Store) (out : result (list CallSession)) : Prop :=
  match firstn 1 (filter (fun u => u_id u =? userId) (rows (users st))) with
  | [] => out = Err NotFoundError
  | _ :: _ =>
      exists answer, out = Ok answer /\
        Permutation (filter (fun s => cs_user_id s =? userId) (rows (call_sessions st))) answer
  end.

(** [usersTable LEFT JOIN subscriptionPlansTable ON users.subscription_plan_id
    = subscription_plans.id]: a user row whose plan id is null or matches no
    plan comes out once, with null plan columns; otherwise once per matching
    plan row. *)
Definition users_left_join_plans (us : list User) (ps : list SubscriptionPlan)
    : list (User * option SubscriptionPlan) :=
  flat_map (fun u =>
    match filter (fun p => match u_subscription_plan_id u with
                           | Some pid => sp_id p =? pid
                           | None => false
                           end) ps with
    | [] => [(u, None)]
    | ms => map (fun p => (u, Some p)) ms
    end) us.

(** server/src/handlers/get_users.ts: [getUsers] selects the user columns of
    the join (no [ORDER BY]) and maps each row to the same six fields. *)
Definition getUsers (st : Store) (out : result (list User)) : Prop :=
  exists answer, out = Ok answer /\
    Permutation (map fst (users_left_join_plans (rows (users st)) (rows (subscription_plans st))))
                answer.

(** server/src/handlers/get_subscription_plans.ts: [getSubscriptionPlans]
    selects every plan (no [ORDER BY]) and maps each row to the plan with
    [price: parseFloat(plan.price)]. *)
Definition getSubscriptionPlans (st : Store) (out : result (list SubscriptionPlanOut)) : Prop :=
  exists answer, out = Ok answer /\
    Permutation (map plan_out (rows (subscription_plans st))) answer.

(** ** Further predicates used by the statements *)



(** Every key and every call session belongs to a stored user, every turn to
    a stored call session. *)
Definition refs_ok (st : Store) : Prop :=
  incl (map ak_user_id (rows (api_keys st))) (map u_id (rows (users st))) /\
  incl (map cs_user_id (rows (call_sessions st))) (map u_id (rows (users st))) /\
  incl (map t_call_session_id (rows (turns st))) (map cs_id (rows (call_sessions st))).

Definition plan_names_unique (st : Store) : Prop :=
  NoDup (map sp_name (rows (subscription_plans st))).

Definition twilio_ids_unique (st : Store) : Prop :=
  NoDup (map cs_twilio_call_id (rows (call_sessions st))).

Definition voice_identifiers_unique (st : Store) : Prop :=
  NoDup (map v_identifier (rows (voices st))).

Definition grows (l l' : list Z) : Prop := exists x : list Z, l' = (l ++ x)%list.

(** The id column of every table of [st'] extends that of [st]. *)
Definition ids_grow (st st' : Store) : Prop :=
  grows (map sp_id (rows (subscription_plans st))) (map sp_id (rows (subscription_plans st'))) /\
  grows (map u_id (rows (users st))) (map u_id (rows (users st'))) /\
  grows (map ak_id (rows (api_keys st))) (map ak_id (rows (api_keys st'))) /\
  grows (map v_id (rows (voices st))) (map v_id (rows (voices st'))) /\
  grows (map cs_id (rows (call_sessions st))) (map cs_id (rows (call_sessions st'))) /\
  grows (map t_id (rows (turns st))) (map t_id (rows (turns st'))).



(** A store with one voice, identifier "alloy". *)
Definition voice_store : Store :=
  exec_all [(ReqCreateVoice (mkCreateVoiceInput "Alloy" "alloy" None), 5)] empty_store.

(** quota_store with one key of user 1. *)
Definition key_store : Store :=
  exec_all [(ReqCreateApiKey (key_input "h1"), 20)] quota_store.

(** Tables after a rejected and after an accepted insert. *)
Definition bump {A} (t : Table A) : Table A := mkTable (rows t) (seq t + 1).
Definition push {A} (t : Table A) (r : A) : Table A := mkTable (rows t ++ [r]) (seq t + 1).

(** The row [endCallSession] writes. *)
Definition set_end_time (t : instant) (s : CallSession) : CallSession :=
  mkCallSession (cs_id s) (cs_twilio_call_id s) (cs_user_id s) (cs_start_time s) (Some t)
                (cs_created_at s).

(** *** Prices

    The value of a decimal text, as a rational. *)
Definition numeric_value (s : string) : option Q :=
  match numeric_in s with Some (NumDec m e) => Some (dec_Q m e) | _ => None end.

(** The rational value of a finite double. *)
Definition Q_of_double (x : spec_float) : Q :=
  match x with
  | S754_finite b m e =>
      let v := if 0 <=? e then inject_Z (Z.pos m * 2 ^ e) else Z.pos m # Z.to_pos (2 ^ (- e)) in
      if b then Qopp v else v
  | _ => 0
  end.

(** [Number::toString] (ECMAScript, 6.1.6.1.20) on a positive finite double
    [x]: [k] is the least number of digits [s] of a decimal [s * 10^(n-k)]
    that rounds to [x], and [s] is one of those closest to [x] (the choice
    between two equally close ones is left open). *)
Definition js_digits (x : spec_float) (s n k : Z) : Prop :=
  1 <= k /\ 10 ^ (k - 1) <= s < 10 ^ k /\ round_to_double (dec_Q s (n - k)) = x /\
  (forall s' n' k', 1 <= k' -> 10 ^ (k' - 1) <= s' < 10 ^ k' ->
     round_to_double (dec_Q s' (n' - k')) = x -> k <= k') /\
  (forall s' n', 10 ^ (k - 1) <= s' < 10 ^ k -> round_to_double (dec_Q s' (n' - k)) = x ->
     Qle (Qabs (dec_Q s (n - k) - Q_of_double x)) (Qabs (dec_Q s' (n' - k) - Q_of_double x))).

Definition exp_sign (neg : bool) : ascii := if neg then "-"%char else "+"%char.

(** The four layouts of [Number::toString] for the digits [s], [k] of them,
    and the decimal exponent [n]. *)
Definition js_format_chars (s n k : Z) : list ascii :=
  let ds := decimal_digits s in
  if (k <=? n) && (n <=? 21) then ds ++ repeat "0"%char (Z.to_nat (n - k))
  else if (0 <? n) && (n <=? 21) then
    firstn (Z.to_nat n) ds ++ "."%char :: skipn (Z.to_nat n) ds
  else if (-6 <? n) && (n <=? 0) then
    "0"%char :: "."%char :: repeat "0"%char (Z.to_nat (- n)) ++ ds
  else
    let es := exp_sign (n - 1 <? 0) :: decimal_digits (Z.abs (n - 1)) in
    if k =? 1 then ds ++ "e"%char :: es
    else firstn 1 ds ++ "."%char :: skipn 1 ds ++ "e"%char :: es.

Definition js_format (s n k : Z) : string := string_of_list_ascii (js_format_chars s n k).

(** [str] is [x.toString()], the text [createSubscriptionPlan] binds for the
    price [x]. *)
Definition js_number_to_string (x : spec_float) (str : string) : Prop :=
  match x with
  | S754_nan => str = "NaN"
  | S754_zero _ => str = "0"
  | S754_infinity b => str = if b then "-Infinity" else "Infinity"
  | S754_finite b m e =>
      exists s n k, js_digits (S754_finite false m e) s n k /\
        str = ((if b then "-" else "") ++ js_format s n k)%string
  end.

(** A limit of a plan is null or in the range of its integer column. *)
Definition limit_ok (o : option Z) : bool :=
  match o with Some z => int4_ok z | None => true end.

(** Reading digits one at a time. *)
Definition dstep (acc : Z) (c : ascii) : Z :=
  acc * 10 + match digit_value c with Some d => d | None => 0 end.

Definition is_digit (c : ascii) : Prop := digit_value c <> None.

(** ** Invariants of handlers

    [keeps I m]: running [m] from a store satisfying [I] ends in a store
    satisfying [I], whatever the outcome. *)
Definition keeps (I : Store -> Prop) {A} (m : M A) : Prop :=
  forall st, I st -> I (snd (m st)).

Lemma keeps_ret I {A} (a : A) : keeps I (ret a).
Proof. intros st H; exact H. Qed.

Lemma keeps_throw I {A} (e : error) : keeps I (@throw A e).
Proof. intros st H; exact H. Qed.

Lemma keeps_select I {A} get (p : A -> bool) : keeps I (select get p).
Proof. intros st H; exact H. Qed.

Lemma keeps_bind I {A B} (m : M A) (k : A -> M B) :
  keeps I m -> (forall a, keeps I (k a)) -> keeps I (bind m k).
Proof.
  intros Hm Hk st H; unfold bind.
  specialize (Hm st H).
  destruct (m st) as [[a|e] st']; simpl in *; auto.
  apply Hk; exact Hm.
Qed.

(** A statement on a table that the handler does not write. *)
Lemma keeps_insert_other {A X} (proj : Store -> X) (c : X) get set clash (mk : Z -> A) :
  (forall t st, proj (set t st) = proj st) ->
  keeps (fun st => proj st = c) (insert get set clash mk).
Proof.
  intros Hs st H; unfold insert.
  destruct (existsb _ _); simpl; rewrite Hs; exact H.
Qed.

Lemma keeps_update_other {A X} (proj : Store -> X) (c : X) get set same p (f : A -> A) :
  (forall t st, proj (set t st) = proj st) ->
  keeps (fun st => proj st = c) (update get set same p f).
Proof.
  intros Hs st H; unfold update.
  destruct (existsb _ _); simpl; [exact H | rewrite Hs; exact H].
Qed.

Ltac unfold_handlers :=
  unfold createUser, updateUser, createSubscriptionPlan, check_api_key_quota, createApiKey,
    updateApiKey, createVoice, createCallSession, endCallSession, createTurn,
    param_int4, param_int4_opt, param_numeric, numeric_10_2.

Ltac keeps_step :=
  first
    [ apply keeps_bind; [ | intro ]
    | apply keeps_ret
    | apply keeps_throw
    | apply keeps_select
    | apply keeps_insert_other; reflexivity
    | apply keeps_update_other; reflexivity
    | progress cbv beta zeta
    | progress unfold_handlers
    | match goal with
      | |- keeps _ (match ?x with _ => _ end) => destruct x
      end ].

(** The plans table is written by [createSubscriptionPlan] only. *)
Lemma plans_frame r now st :
  (forall i, r <> ReqCreateSubscriptionPlan i) ->
  subscription_plans (exec r now st) = subscription_plans st.
Proof.
  intros Hr.
  destruct r as [i|i|i|i|i|i|i|i|i];
    [ | | exfalso; exact (Hr i eq_refl) | | | | | | ];
    simpl exec;
    match goal with
    | |- subscription_plans (snd (?m st)) = _ =>
        enough (K : keeps (fun s => subscription_plans s = subscription_plans st) m)
          by exact (K st eq_refl)
    end;
    unfold_handlers; repeat keeps_step.
Qed.

Lemma serial_ok_empty {A} (id : A -> Z) : serial_ok id (mkTable [] 1).
Proof. split; [|split]; simpl; [lia | constructor | constructor]. Qed.

Lemma serial_ok_bump {A} (id : A -> Z) t :
  serial_ok id t -> serial_ok id (mkTable (rows t) (seq t + 1)).
Proof.
  intros (H1 & H2 & H3); split; [|split]; simpl; [lia| |exact H3].
  eapply Forall_impl; [|exact H2]; intros r Hr; cbv beta in *; lia.
Qed.

Lemma serial_ok_append {A} (id : A -> Z) t r :
  serial_ok id t -> id r = seq t -> serial_ok id (mkTable (rows t ++ [r]) (seq t + 1)).
Proof.
  intros (H1 & H2 & H3) Hr; split; [|split]; simpl; [lia| |].
  - apply Forall_app; split.
    + eapply Forall_impl; [|exact H2]; intros x Hx; cbv beta in *; lia.
    + constructor; [cbv beta in *; lia | constructor].
  - rewrite map_app; simpl.
    apply NoDup_app; [exact H3 | constructor; [intros []|constructor] |].
    intros x Hx [Hy|[]]; subst x.
    apply in_map_iff in Hx; destruct Hx as [y [Ey Hy]].
    rewrite Forall_forall in H2; specialize (H2 y Hy); cbv beta in H2; lia.
Qed.

Lemma serial_ok_map {A} (id : A -> Z) t (p : A -> bool) f :
  serial_ok id t -> (forall r, id (f r) = id r) ->
  serial_ok id (mkTable (map (fun r => if p r then f r else r) (rows t)) (seq t)).
Proof.
  intros (H1 & H2 & H3) Hf; split; [|split]; simpl; [lia| |].
  - apply Forall_map; eapply Forall_impl; [|exact H2]; intros x Hx.
    destruct (p x); [rewrite Hf|]; exact Hx.
  - rewrite map_map.
    rewrite (map_ext _ id) by (intros x; destruct (p x); [apply Hf | reflexivity]).
    exact H3.
Qed.

(** Counting through [filter], [map] and [++]. *)
Lemma count_app {A} (p : A -> bool) l l' : count p (l ++ l') = (count p l + count p l')%nat.
Proof. unfold count; rewrite filter_app, length_app; reflexivity. Qed.

Lemma count_map {A B} (p : B -> bool) (f : A -> B) l : count p (map f l) = count (fun x => p (f x)) l.
Proof.
  unfold count; induction l as [|x l IH]; simpl; [reflexivity|].
  destruct (p (f x)); simpl; rewrite IH; reflexivity.
Qed.

Lemma count_filter {A} (p q : A -> bool) l : count q (filter p l) = count (fun x => p x && q x) l.
Proof.
  unfold count; induction l as [|x l IH]; simpl; [reflexivity|].
  destruct (p x); simpl; [destruct (q x); simpl|]; rewrite IH; reflexivity.
Qed.

Lemma count_In {A} (p : A -> bool) l x : In x l -> p x = true -> (1 <= count p l)%nat.
Proof.
  unfold count; intros Hin Hp.
  destruct (filter p l) eqn:E; simpl; [|lia].
  assert (In x (filter p l)) by (apply filter_In; auto).
  rewrite E in H; destruct H.
Qed.

Lemma count_ext {A} (p q : A -> bool) l :
  (forall x, In x l -> p x = q x) -> count p l = count q l.
Proof.
  unfold count; induction l as [|x l IH]; intros H; simpl; [reflexivity|].
  rewrite (H x (or_introl eq_refl)).
  destruct (q x); simpl; rewrite IH by (intros; apply H; right; auto); reflexivity.
Qed.

Lemma count_split {A} (p q : A -> bool) l :
  count q l = (count (fun x => negb (p x) && q x) l + count (fun x => p x && q x) l)%nat.
Proof.
  unfold count; induction l as [|x l IH]; simpl; [reflexivity|].
  destruct (p x), (q x); simpl; rewrite IH; lia.
Qed.

Lemma count_le {A} (p q : A -> bool) l :
  (forall x, p x = true -> q x = true) -> (count p l <= count q l)%nat.
Proof.
  unfold count; induction l as [|x l IH]; intros H; simpl; [lia|].
  specialize (IH H); destruct (p x) eqn:Ep; [rewrite (H x Ep)|destruct (q x)]; simpl; lia.
Qed.

Lemma user_same_email_sym r x : user_same_email r x = user_same_email x r.
Proof. unfold user_same_email; apply String.eqb_sym. Qed.

Lemma user_same_email_refl r : user_same_email r r = true.
Proof. unfold user_same_email; apply String.eqb_refl. Qed.

Lemma existsb_false_In {A} (f : A -> bool) l x : existsb f l = false -> In x l -> f x = false.
Proof.
  intros H Hx; destruct (f x) eqn:E; [|reflexivity].
  assert (existsb f l = true) by (apply existsb_exists; eauto).
  congruence.
Qed.

Lemma count_none {A} (p : A -> bool) l : (forall x, In x l -> p x = false) -> count p l = 0%nat.
Proof.
  intros H; rewrite (count_ext p (fun _ => false)) by exact H.
  clear H; unfold count; induction l; simpl; auto.
Qed.

Lemma count_single {A} (p : A -> bool) r : count p [r] = if p r then 1%nat else 0%nat.
Proof. unfold count; simpl; destruct (p r); reflexivity. Qed.

Lemma emails_unique_insert l r :
  emails_unique l -> existsb (user_clash r) l = false -> emails_unique (l ++ [r]).
Proof.
  intros Hu Hc x Hx; rewrite count_app, count_single.
  assert (Hr : forall y, In y l -> user_same_email r y = false).
  { intros y Hy; pose proof (existsb_false_In _ _ _ Hc Hy) as E.
    unfold user_clash in E; apply orb_false_iff in E; tauto. }
  apply in_app_or in Hx; destruct Hx as [Hx|[<-|[]]].
  - specialize (Hu x Hx).
    rewrite user_same_email_sym, (Hr x Hx); simpl; lia.
  - rewrite (count_none _ l Hr), user_same_email_refl; simpl; lia.
Qed.

Lemma emails_unique_update l (p : User -> bool) f :
  emails_unique l ->
  existsb (fun u => Nat.ltb 1 (count (user_same_email u)
                                (map (fun r => if p r then f r else r) l)))
          (map f (filter p l)) = false ->
  emails_unique (map (fun r => if p r then f r else r) l).
Proof.
  intros Hu Hc x Hx.
  set (rows' := map (fun r => if p r then f r else r) l) in *.
  apply in_map_iff in Hx; destruct Hx as [y [<- Hy]].
  destruct (p y) eqn:Ep.
  - assert (In (f y) (map f (filter p l))) by (apply in_map, filter_In; auto).
    pose proof (existsb_false_In _ _ _ Hc H) as E; apply Nat.ltb_ge in E; exact E.
  - unfold rows'; rewrite count_map, (count_split p).
    assert (Hsnd : count (fun z => p z && user_same_email y (if p z then f z else z)) l = 0%nat).
    { apply count_none; intros z Hz.
      destruct (p z) eqn:Ez; [simpl|reflexivity].
      destruct (user_same_email y (f z)) eqn:Es; [exfalso|reflexivity].
      assert (Hin : In (f z) (map f (filter p l))) by (apply in_map, filter_In; auto).
      pose proof (existsb_false_In _ _ _ Hc Hin) as E; apply Nat.ltb_ge in E.
      unfold rows' in E; rewrite count_map, (count_split p) in E.
      assert (1 <= count (fun w => negb (p w) && user_same_email (f z) (if p w then f w else w)) l)%nat.
      { apply (count_In _ _ y Hy); rewrite Ep; simpl; rewrite user_same_email_sym; exact Es. }
      assert (1 <= count (fun w => p w && user_same_email (f z) (if p w then f w else w)) l)%nat.
      { apply (count_In _ _ z Hz); rewrite Ez; simpl; apply user_same_email_refl. }
      lia. }
    rewrite Hsnd.
    assert (count (fun z => negb (p z) && user_same_email y (if p z then f z else z)) l
            <= count (user_same_email y) l)%nat.
    { apply count_le; intros z; destruct (p z); simpl; [discriminate|auto]. }
    specialize (Hu y Hy); lia.
Qed.

Ltac wf_split :=
  match goal with
  | H : wf_store _ |- _ => destruct H as (Hp & Hu & Hk & Hs & Ht & He)
  end;
  unfold wf_store; simpl;
  split; [|split; [|split; [|split; [|split]]]]; try assumption;
  try (apply serial_ok_bump; assumption);
  try (apply serial_ok_append; [assumption | auto]).

Lemma keeps_wf_insert_plans clash mk :
  (forall n, sp_id (mk n) = n) ->
  keeps wf_store (insert subscription_plans set_subscription_plans clash mk).
Proof. intros Hid st H; unfold insert; destruct (existsb _ _); wf_split. Qed.

Lemma keeps_wf_insert_users mk :
  (forall n, u_id (mk n) = n) ->
  keeps wf_store (insert users set_users user_clash mk).
Proof.
  intros Hid st H; unfold insert; destruct (existsb _ _) eqn:E; wf_split.
  apply emails_unique_insert; assumption.
Qed.

Lemma keeps_wf_insert_api_keys clash mk :
  (forall n, ak_id (mk n) = n) ->
  keeps wf_store (insert api_keys set_api_keys clash mk).
Proof. intros Hid st H; unfold insert; destruct (existsb _ _); wf_split. Qed.

Lemma keeps_wf_insert_voices clash mk :
  keeps wf_store (insert voices set_voices clash mk).
Proof. intros st H; unfold insert; destruct (existsb _ _); wf_split. Qed.

Lemma keeps_wf_insert_call_sessions clash mk :
  (forall n, cs_id (mk n) = n) ->
  keeps wf_store (insert call_sessions set_call_sessions clash mk).
Proof. intros Hid st H; unfold insert; destruct (existsb _ _); wf_split. Qed.

Lemma keeps_wf_insert_turns clash mk :
  (forall n, t_id (mk n) = n) ->
  keeps wf_store (insert turns set_turns clash mk).
Proof. intros Hid st H; unfold insert; destruct (existsb _ _); wf_split. Qed.

Lemma keeps_wf_update_users p f :
  (forall r, u_id (f r) = u_id r) ->
  keeps wf_store (update users set_users user_same_email p f).
Proof.
  intros Hid st H; unfold update; destruct (existsb _ _) eqn:E; [exact H|].
  wf_split; [apply serial_ok_map; assumption | apply emails_unique_update; assumption].
Qed.

Lemma keeps_wf_update_api_keys same p f :
  (forall r, ak_id (f r) = ak_id r) ->
  keeps wf_store (update api_keys set_api_keys same p f).
Proof.
  intros Hid st H; unfold update; destruct (existsb _ _); [exact H|].
  wf_split; apply serial_ok_map; assumption.
Qed.

Lemma keeps_wf_update_call_sessions same p f :
  (forall r, cs_id (f r) = cs_id r) ->
  keeps wf_store (update call_sessions set_call_sessions same p f).
Proof.
  intros Hid st H; unfold update; destruct (existsb _ _); [exact H|].
  wf_split; apply serial_ok_map; assumption.
Qed.

Lemma wf_empty : wf_store empty_store.
Proof.
  unfold wf_store; simpl; repeat split; try apply serial_ok_empty.
  intros r [].
Qed.

Lemma wf_exec r now st : wf_store st -> wf_store (exec r now st).
Proof.
  revert st.
  destruct r as [i|i|i|i|i|i|i|i|i]; simpl exec;
    match goal with
    | |- forall st, wf_store st -> wf_store (snd (?m st)) => change (keeps wf_store m)
    end;
    repeat (first
      [ apply keeps_wf_insert_plans; reflexivity
      | apply keeps_wf_insert_users; reflexivity
      | apply keeps_wf_insert_api_keys; reflexivity
      | apply keeps_wf_insert_voices
      | apply keeps_wf_insert_call_sessions; reflexivity
      | apply keeps_wf_insert_turns; reflexivity
      | apply keeps_wf_update_users; reflexivity
      | apply keeps_wf_update_api_keys; reflexivity
      | apply keeps_wf_update_call_sessions; reflexivity
      | keeps_step ]).
Qed.

Lemma reachable_wf st : reachable st -> wf_store st.
Proof.
  induction 1; [exact wf_empty | apply wf_exec; assumption].
Qed.

Lemma reachable_exec_all rs st : reachable st -> reachable (exec_all rs st).
Proof.
  revert st; induction rs as [|[r now] rs IH]; intros st H; simpl; [exact H|].
  apply IH; constructor; exact H.
Qed.

(** ** Lookups *)

Lemma first_filter_In {A} (p : A -> bool) l x :
  first (filter p l) = Some x -> In x l /\ p x = true.
Proof.
  intros H; destruct (filter p l) as [|y l'] eqn:E; [discriminate|].
  injection H as ->; apply filter_In; rewrite E; left; reflexivity.
Qed.

Lemma serial_ok_fresh {A} (id : A -> Z) t :
  serial_ok id t -> existsb (fun r => seq t =? id r) (rows t) = false.
Proof.
  intros (_ & H & _); apply not_true_iff_false; intros E.
  apply existsb_exists in E; destruct E as [r [Hr E]].
  apply Z.eqb_eq in E; rewrite Forall_forall in H; specialize (H r Hr); lia.
Qed.

Lemma find_plan_pos st pid plan :
  wf_store st -> find_plan st pid = Some plan -> 0 < pid.
Proof.
  intros (Hp & _) H; apply first_filter_In in H; destruct H as [Hin E].
  apply Z.eqb_eq in E; subst pid.
  destruct Hp as (_ & Hp & _); rewrite Forall_forall in Hp; specialize (Hp plan Hin); lia.
Qed.

(** [createApiKey] on an existing user: the quota check, then the insert. *)
Lemma createApiKey_user i now st u :
  find_user st (cak_user_id i) = Some u ->
  createApiKey i now st =
  match check_api_key_quota i u st with
  | (Ok _, st') =>
      insert api_keys set_api_keys api_key_clash
        (fun id => mkApiKey id (cak_user_id i) (cak_key_hash i) (cak_name i) true now None) st'
  | (Err e, st') => (Err e, st')
  end.
Proof.
  unfold find_user, createApiKey, bind, select; simpl.
  destruct (filter _ _) as [|u' rest]; [discriminate|].
  intros H; injection H as ->; reflexivity.
Qed.

(** The insert of [createApiKey] into a store whose key ids come from the
    sequence always succeeds. *)
Lemma insert_api_key_ok st uid kh nm now :
  serial_ok ak_id (api_keys st) ->
  insert api_keys set_api_keys api_key_clash
    (fun id => mkApiKey id uid kh nm true now None) st =
  (Ok (mkApiKey (seq (api_keys st)) uid kh nm true now None),
   set_api_keys (mkTable (rows (api_keys st) ++
       [mkApiKey (seq (api_keys st)) uid kh nm true now None])
       (seq (api_keys st) + 1)) st).
Proof.
  intros H; unfold insert, api_key_clash; simpl.
  rewrite (serial_ok_fresh ak_id _ H); reflexivity.
Qed.

(** The quota check when the user's plan exists and sets [max_api_keys]. *)
Lemma check_quota_limited i u st pid plan N :
  u_subscription_plan_id u = Some pid -> pid <> 0 ->
  find_plan st pid = Some plan -> sp_max_api_keys plan = Some N ->
  check_api_key_quota i u st =
  (if active_key_count st (cak_user_id i) >=? N then Err QuotaExceededError else Ok tt, st).
Proof.
  intros Hu Hpid Hf Hm; unfold check_api_key_quota, truthy_num; rewrite Hu.
  apply Z.eqb_neq in Hpid; rewrite Hpid; simpl.
  unfold find_plan in Hf; unfold bind, select.
  destruct (filter _ _) as [|plan' rest]; [discriminate|].
  injection Hf as ->; rewrite Hm.
  unfold active_key_count; rewrite count_filter.
  destruct (_ >=? N); reflexivity.
Qed.

(** ** Decimal texts and doubles *)

Lemma digit_char_value d : 0 <= d < 10 -> digit_value (digit_char d) = Some d.
Proof.
  intros H.
  assert (d = 0 \/ d = 1 \/ d = 2 \/ d = 3 \/ d = 4 \/ d = 5 \/ d = 6 \/ d = 7 \/ d = 8 \/ d = 9)
    as Hd by lia.
  repeat destruct Hd as [-> | Hd]; [reflexivity ..|]; subst; reflexivity.
Qed.

Lemma take_digits_app D rest acc n :
  Forall is_digit D ->
  take_digits (D ++ rest)%list acc n = take_digits rest (fold_left dstep D acc) (n + Z.of_nat (List.length D)).
Proof.
  revert acc n; induction D as [|c D IH]; intros acc n HD;
    cbn [app take_digits fold_left List.length].
  - rewrite Z.add_0_r; reflexivity.
  - inversion HD as [|? ? Hc HD']; subst.
    unfold is_digit in Hc; destruct (digit_value c) as [d|] eqn:E; [|congruence].
    rewrite IH by exact HD'.
    replace (dstep acc c) with (acc * 10 + d) by (unfold dstep; rewrite E; reflexivity).
    f_equal. lia.
Qed.

Lemma take_digits_all D acc n :
  Forall is_digit D -> take_digits D acc n = (fold_left dstep D acc, n + Z.of_nat (List.length D), []).
Proof.
  intros HD. rewrite <- (app_nil_r D) at 1. rewrite take_digits_app by exact HD. reflexivity.
Qed.

Lemma fold_dstep_acc D acc :
  fold_left dstep D acc = acc * 10 ^ Z.of_nat (List.length D) + fold_left dstep D 0.
Proof.
  revert acc; induction D as [|c D IH]; intros acc; cbn [fold_left List.length]; [lia|].
  rewrite (IH (dstep acc c)), (IH (dstep 0 c)). unfold dstep.
  rewrite Nat2Z.inj_succ, Z.pow_succ_r by lia. ring.
Qed.

Lemma sign_of_digit c r : is_digit c -> sign_of (c :: r) = (1, c :: r).
Proof.
  unfold is_digit; destruct c as [b0 b1 b2 b3 b4 b5 b6 b7].
  destruct b0, b1, b2, b3, b4, b5, b6, b7; intros H; try reflexivity;
    exfalso; apply H; reflexivity.
Qed.

Lemma digit_not_e c : is_digit c -> Ascii.eqb c "e" || Ascii.eqb c "E" = false.
Proof.
  unfold is_digit; destruct c as [b0 b1 b2 b3 b4 b5 b6 b7].
  destruct b0, b1, b2, b3, b4, b5, b6, b7; intros H; try reflexivity;
    exfalso; apply H; reflexivity.
Qed.

Lemma digits_rev_spec f z :
  0 <= z < 10 ^ Z.of_nat f ->
  Forall is_digit (digits_rev f z) /\
  fold_left dstep (rev (digits_rev f z)) 0 = z /\
  (forall k, 1 <= k -> 10 ^ (k - 1) <= z < 10 ^ k -> List.length (digits_rev f z) = Z.to_nat k).
Proof.
  revert z; induction f as [|f IH]; intros z Hz.
  - simpl in Hz. assert (z = 0) by lia; subst. simpl. split; [constructor|].
    split; [reflexivity|]. intros k Hk Hb. pose proof (Z.pow_pos_nonneg 10 (k - 1)). lia.
  - simpl. destruct (z <=? 0) eqn:E.
    + apply Z.leb_le in E. assert (z = 0) by lia; subst. split; [constructor|].
      split; [reflexivity|]. intros k Hk Hb. pose proof (Z.pow_pos_nonneg 10 (k - 1)). lia.
    + apply Z.leb_gt in E.
      rewrite Nat2Z.inj_succ, Z.pow_succ_r in Hz by lia.
      assert (Hq : 0 <= z / 10 < 10 ^ Z.of_nat f).
      { split; [apply Z.div_pos; lia | apply Z.div_lt_upper_bound; lia]. }
      destruct (IH (z / 10) Hq) as (H1 & H2 & H3).
      pose proof (Z.mod_pos_bound z 10 ltac:(lia)) as Hm.
      split; [|split].
      * constructor; [unfold is_digit; rewrite digit_char_value by lia; discriminate | exact H1].
      * simpl. rewrite fold_left_app, H2. simpl. unfold dstep.
        rewrite digit_char_value by lia. pose proof (Z.div_mod z 10). lia.
      * intros k Hk Hb. simpl.
        destruct (Z.eq_dec k 1) as [->|Hk1].
        -- assert (z / 10 = 0) as Z0 by (apply Z.div_small; lia).
           rewrite Z0. destruct f; reflexivity.
        -- rewrite (H3 (k - 1)); [lia | lia |].
           split.
           ++ apply Z.div_le_lower_bound; [lia|].
              replace (10 * 10 ^ (k - 1 - 1)) with (10 ^ (k - 1)); [lia|].
              rewrite <- Z.pow_succ_r by lia. f_equal; lia.
           ++ apply Z.div_lt_upper_bound; [lia|].
              replace (10 * 10 ^ (k - 1)) with (10 ^ k); [lia|].
              rewrite <- Z.pow_succ_r by lia. f_equal; lia.
Qed.

Lemma decimal_digits_spec z :
  0 < z ->
  Forall is_digit (decimal_digits z) /\
  fold_left dstep (decimal_digits z) 0 = z /\
  (forall k, 1 <= k -> 10 ^ (k - 1) <= z < 10 ^ k -> List.length (decimal_digits z) = Z.to_nat k).
Proof.
  intros Hz. unfold decimal_digits.
  assert (Hb : 0 <= z < 10 ^ Z.of_nat (S (Z.to_nat (Z.log2 z)))).
  { split; [lia|]. pose proof (Z.log2_spec z Hz) as [_ H].
    pose proof (Z.log2_nonneg z).
    rewrite Nat2Z.inj_succ, Z2Nat.id by lia.
    apply Z.lt_le_trans with (1 := H). apply Z.pow_le_mono_l; lia. }
  destruct (digits_rev_spec _ z Hb) as (H1 & H2 & H3).
  split; [|split].
  - apply Forall_rev; exact H1.
  - exact H2.
  - intros k Hk Hk'. rewrite length_rev. apply H3; assumption.
Qed.

Lemma repeat_zero_digits j : Forall is_digit (repeat "0"%char j).
Proof.
  induction j; simpl; constructor; [unfold is_digit; simpl; discriminate | exact IHj].
Qed.

Lemma fold_repeat_zero j acc : fold_left dstep (repeat "0"%char j) acc = acc * 10 ^ Z.of_nat j.
Proof.
  revert acc; induction j as [|j IH]; intros acc; cbn [repeat fold_left]; [simpl; lia|].
  rewrite IH. unfold dstep. replace (digit_value "0"%char) with (Some 0) by reflexivity.
  rewrite Nat2Z.inj_succ, Z.pow_succ_r by lia. ring.
Qed.

Lemma Forall_digits_app A B : Forall is_digit A -> Forall is_digit B -> Forall is_digit (A ++ B)%list.
Proof. intros; apply Forall_app; split; assumption. Qed.

Lemma parse_int A :
  A <> [] -> Forall is_digit A -> parse_decimal A = Some (fold_left dstep A 0, 0).
Proof.
  intros Hne HA. destruct A as [|c A']; [congruence|].
  pose proof HA as HA0. inversion HA as [|? ? Hc _]; subst.
  unfold parse_decimal. rewrite sign_of_digit by exact Hc. cbv beta iota zeta.
  rewrite take_digits_all by exact HA0. cbv beta iota zeta.
  replace (0 + Z.of_nat (List.length (c :: A')) + 0 =? 0) with false
    by (symmetry; apply Z.eqb_neq; cbn [List.length]; lia).
  f_equal; f_equal; lia.
Qed.

Lemma parse_point A B :
  A <> [] -> Forall is_digit A -> Forall is_digit B ->
  parse_decimal (A ++ "."%char :: B)%list
  = Some (fold_left dstep (A ++ B)%list 0, - Z.of_nat (List.length B)).
Proof.
  intros Hne HA HB. destruct A as [|c A']; [congruence|].
  pose proof HA as HA0. inversion HA as [|? ? Hc _]; subst.
  unfold parse_decimal. rewrite <- app_comm_cons, sign_of_digit by exact Hc. cbv beta iota zeta.
  rewrite app_comm_cons, take_digits_app by exact HA0. cbn [take_digits].
  replace (digit_value "."%char) with (@None Z) by reflexivity. cbv beta iota zeta.
  rewrite take_digits_all by exact HB. cbv beta iota zeta.
  replace (0 + Z.of_nat (List.length (c :: A')) + (0 + Z.of_nat (List.length B)) =? 0) with false
    by (symmetry; apply Z.eqb_neq; cbn [List.length]; lia).
  rewrite fold_left_app. f_equal; f_equal; lia.
Qed.


Lemma parse_exp_int A neg X :
  A <> [] -> Forall is_digit A -> X <> [] -> Forall is_digit X ->
  parse_decimal (A ++ "e"%char :: exp_sign neg :: X)%list
  = Some (fold_left dstep A 0, (if neg then -1 else 1) * fold_left dstep X 0).
Proof.
  intros Hne HA HXne HX. destruct A as [|c A']; [congruence|].
  pose proof HA as HA0. inversion HA as [|? ? Hc _]; subst.
  unfold parse_decimal. rewrite <- app_comm_cons, sign_of_digit by exact Hc. cbv beta iota zeta.
  rewrite app_comm_cons, take_digits_app by exact HA0. cbn [take_digits].
  replace (digit_value "e"%char) with (@None Z) by reflexivity. cbv beta iota zeta.
  replace (0 + Z.of_nat (List.length (c :: A')) + 0 =? 0) with false
    by (symmetry; apply Z.eqb_neq; cbn [List.length]; lia).
  replace (Ascii.eqb "e" "e" || Ascii.eqb "e" "E") with true by reflexivity.
  replace (sign_of (exp_sign neg :: X)) with ((if neg then -1 else 1), X) by (destruct neg; reflexivity).
  cbv beta iota zeta. rewrite take_digits_all by exact HX. cbv beta iota zeta.
  destruct X as [|d X']; [congruence|].
  replace (0 + Z.of_nat (List.length (d :: X')) =? 0) with false
    by (symmetry; apply Z.eqb_neq; cbn [List.length]; lia).
  f_equal; f_equal; lia.
Qed.

Lemma parse_exp_point A B neg X :
  A <> [] -> Forall is_digit A -> Forall is_digit B -> X <> [] -> Forall is_digit X ->
  parse_decimal (A ++ "."%char :: B ++ "e"%char :: exp_sign neg :: X)%list
  = Some (fold_left dstep (A ++ B)%list 0,
          (if neg then -1 else 1) * fold_left dstep X 0 - Z.of_nat (List.length B)).
Proof.
  intros Hne HA HB HXne HX. destruct A as [|c A']; [congruence|].
  pose proof HA as HA0. inversion HA as [|? ? Hc _]; subst.
  unfold parse_decimal. rewrite <- app_comm_cons, sign_of_digit by exact Hc. cbv beta iota zeta.
  rewrite app_comm_cons, take_digits_app by exact HA0. cbn [take_digits].
  replace (digit_value "."%char) with (@None Z) by reflexivity. cbv beta iota zeta.
  rewrite take_digits_app by exact HB. cbn [take_digits].
  replace (digit_value "e"%char) with (@None Z) by reflexivity. cbv beta iota zeta.
  replace (0 + Z.of_nat (List.length (c :: A')) + (0 + Z.of_nat (List.length B)) =? 0) with false
    by (symmetry; apply Z.eqb_neq; cbn [List.length]; lia).
  replace (Ascii.eqb "e" "e" || Ascii.eqb "e" "E") with true by reflexivity.
  replace (sign_of (exp_sign neg :: X)) with ((if neg then -1 else 1), X) by (destruct neg; reflexivity).
  cbv beta iota zeta. rewrite take_digits_all by exact HX. cbv beta iota zeta.
  destruct X as [|d X']; [congruence|].
  replace (0 + Z.of_nat (List.length (d :: X')) =? 0) with false
    by (symmetry; apply Z.eqb_neq; cbn [List.length]; lia).
  rewrite fold_left_app. f_equal; f_equal; lia.
Qed.

Lemma Forall_firstn_skipn {A} (P : A -> Prop) j l :
  Forall P l -> Forall P (firstn j l) /\ Forall P (skipn j l).
Proof.
  intros H. rewrite <- (firstn_skipn j l) in H. apply Forall_app in H. exact H.
Qed.

Lemma decimal_digits_ne z : 0 < z -> decimal_digits z <> [].
Proof.
  intros Hz. unfold decimal_digits. cbn [digits_rev].
  replace (z <=? 0) with false by (symmetry; apply Z.leb_gt; exact Hz).
  cbn [rev]. intros E. apply app_eq_nil in E as [_ E]. discriminate.
Qed.

Lemma js_format_parse s n k :
  1 <= k -> 10 ^ (k - 1) <= s < 10 ^ k ->
  exists m e, parse_decimal (js_format_chars s n k) = Some (m, e) /\ Qeq (dec_Q m e) (dec_Q s (n - k)).
Proof.
  intros Hk Hs.
  assert (Hs0 : 0 < s) by (pose proof (Z.pow_pos_nonneg 10 (k - 1)); lia).
  destruct (decimal_digits_spec s Hs0) as (FD & VD & LD).
  specialize (LD k Hk Hs).
  set (D := decimal_digits s) in *.
  assert (Dne : D <> []) by (intros E; rewrite E in LD; simpl in LD; lia).
  unfold js_format_chars; fold D.
  destruct ((k <=? n) && (n <=? 21)) eqn:C1.
  { apply andb_true_iff in C1 as [C1 _]; apply Z.leb_le in C1.
    rewrite parse_int.
    - eexists; eexists; split; [reflexivity|].
      rewrite fold_left_app, VD, fold_repeat_zero, Z2Nat.id by lia.
      unfold dec_Q. rewrite Z.leb_refl. replace (0 <=? n - k) with true by (symmetry; apply Z.leb_le; lia).
      rewrite Z.mul_1_r. reflexivity.
    - destruct D; [congruence|discriminate].
    - apply Forall_digits_app; [exact FD | apply repeat_zero_digits]. }
  destruct ((0 <? n) && (n <=? 21)) eqn:C2.
  { apply andb_true_iff in C2 as [C2 C3]; apply Z.ltb_lt in C2; apply Z.leb_le in C3.
    assert (C4 : n < k) by (apply andb_false_iff in C1 as [C1|C1]; apply Z.leb_gt in C1; lia).
    destruct (Forall_firstn_skipn is_digit (Z.to_nat n) D FD) as [F1 F2].
    rewrite parse_point; [| | exact F1 | exact F2].
    - eexists; eexists; split; [reflexivity|].
      rewrite firstn_skipn, VD, length_skipn, LD.
      replace (- Z.of_nat (Z.to_nat k - Z.to_nat n)) with (n - k) by lia. reflexivity.
    - intros E. apply (f_equal (@List.length ascii)) in E. rewrite length_firstn in E.
      simpl in E. lia. }
  destruct ((-6 <? n) && (n <=? 0)) eqn:C5.
  { apply andb_true_iff in C5 as [C5 C6]; apply Z.ltb_lt in C5; apply Z.leb_le in C6.
    change ("0"%char :: "."%char :: (repeat "0"%char (Z.to_nat (- n)) ++ D))%list
      with (["0"%char] ++ "."%char :: (repeat "0"%char (Z.to_nat (- n)) ++ D))%list.
    rewrite parse_point.
    - eexists; eexists; split; [reflexivity|].
      rewrite app_assoc, fold_left_app, fold_left_app, fold_repeat_zero.
      replace (fold_left dstep ["0"%char] 0 * 10 ^ Z.of_nat (Z.to_nat (- n))) with 0
        by (cbn; reflexivity).
      rewrite VD, length_app, repeat_length, LD.
      replace (- Z.of_nat (Z.to_nat (- n) + Z.to_nat k)) with (n - k) by lia. reflexivity.
    - discriminate.
    - constructor; [unfold is_digit; simpl; discriminate | constructor].
    - apply Forall_digits_app; [apply repeat_zero_digits | exact FD]. }
  assert (Hn : n - 1 <> 0).
  { intros E. assert (n = 1) by lia; subst n. simpl in C2. discriminate. }
  assert (Ha : 0 < Z.abs (n - 1)) by lia.
  destruct (decimal_digits_spec (Z.abs (n - 1)) Ha) as (FX & VX & LX).
  assert (Xne : decimal_digits (Z.abs (n - 1)) <> []) by (apply decimal_digits_ne; exact Ha).
  assert (Hsg : (if n - 1 <? 0 then -1 else 1) * Z.abs (n - 1) = n - 1).
  { destruct (n - 1 <? 0) eqn:E; [apply Z.ltb_lt in E | apply Z.ltb_ge in E]; lia. }
  destruct (k =? 1) eqn:C7.
  { apply Z.eqb_eq in C7; subst k.
    rewrite parse_exp_int by assumption.
    eexists; eexists; split; [reflexivity|]. rewrite VD, VX, Hsg. reflexivity. }
  apply Z.eqb_neq in C7.
  destruct (Forall_firstn_skipn is_digit 1 D FD) as [F1 F2].
  rewrite parse_exp_point; [| | exact F1 | exact F2 | exact Xne | exact FX].
  - eexists; eexists; split; [reflexivity|].
    rewrite firstn_skipn, VD, VX, Hsg, length_skipn, LD.
    replace (n - 1 - Z.of_nat (Z.to_nat k - 1)) with (n - k) by lia. reflexivity.
  - destruct D; [congruence | discriminate].
Qed.

Lemma pow10_split e : e + 2 < 0 -> 10 ^ (- e) = 10 ^ (- (e + 2)) * 100.
Proof.
  intros H. replace (- e) with (- (e + 2) + 2) by lia. rewrite Z.pow_add_r by lia. reflexivity.
Qed.

Lemma round_cents_exact m e c : Qeq (dec_Q m e) (c # 100) -> round_cents m e = c.
Proof.
  unfold dec_Q, round_cents, Qeq; intros H.
  destruct (0 <=? e) eqn:E.
  - apply Z.leb_le in E. cbn [Qnum Qden inject_Z] in H.
    replace (0 <=? e + 2) with true by (symmetry; apply Z.leb_le; lia).
    rewrite Z.pow_add_r by lia. change (10 ^ 2) with 100. lia.
  - apply Z.leb_gt in E. cbn [Qnum Qden] in H.
    rewrite Z2Pos.id in H by (apply Z.pow_pos_nonneg; lia).
    destruct (0 <=? e + 2) eqn:E2.
    + apply Z.leb_le in E2. assert (e = -1 \/ e = -2) as [-> | ->] by lia; simpl in H |- *; lia.
    + apply Z.leb_gt in E2. rewrite pow10_split in H by exact E2.
      set (d := 10 ^ (- (e + 2))) in *.
      assert (Hd : 0 < d) by (apply Z.pow_pos_nonneg; lia).
      assert (Hm : m = c * d) by nia. subst m.
      rewrite Z.abs_mul, (Z.abs_eq d) by lia.
      replace (Z.abs c * d * 2 + d) with (Z.abs c * (2 * d) + d) by ring.
      rewrite Z.div_add_l by lia. rewrite (Z.div_small d (2 * d)) by lia.
      rewrite Z.sgn_mul, (Z.sgn_pos d Hd).
      destruct (Z.sgn_spec c) as [[Hc ->] | [[Hc ->] | [Hc ->]]]; lia.
Qed.

Lemma round_cents_large m e :
  Qle (inject_Z (10 ^ 8)) (dec_Q m e) -> 10 ^ 10 <= round_cents m e.
Proof.
  unfold dec_Q, round_cents, Qle; intros H.
  destruct (0 <=? e) eqn:E.
  - apply Z.leb_le in E. cbn [Qnum Qden inject_Z] in H.
    replace (0 <=? e + 2) with true by (symmetry; apply Z.leb_le; lia).
    rewrite Z.pow_add_r by lia. change (10 ^ 2) with 100. change (10 ^ 10) with (10 ^ 8 * 100). lia.
  - apply Z.leb_gt in E. cbn [Qnum Qden inject_Z] in H.
    rewrite Z2Pos.id in H by (apply Z.pow_pos_nonneg; lia).
    destruct (0 <=? e + 2) eqn:E2.
    + apply Z.leb_le in E2. assert (e = -1 \/ e = -2) as [-> | ->] by lia; simpl in H |- *; lia.
    + apply Z.leb_gt in E2. rewrite pow10_split in H by exact E2.
      set (d := 10 ^ (- (e + 2))) in *.
      assert (Hd : 0 < d) by (apply Z.pow_pos_nonneg; lia).
      change (10 ^ 8) with 100000000 in H. change (10 ^ 10) with 10000000000.
      assert (Hm : 0 < m) by nia.
      rewrite (Z.sgn_pos m Hm), (Z.abs_eq m) by lia. rewrite Z.mul_1_l.
      apply Z.div_le_lower_bound; nia.
Qed.

Lemma cents_text_parse c :
  0 <= c -> parse_decimal (list_ascii_of_string (cents_text c)) = Some (c, -2).
Proof.
  intros Hc. unfold cents_text. rewrite list_ascii_of_string_of_list_ascii.
  replace (c <? 0) with false by (symmetry; apply Z.ltb_ge; exact Hc).
  rewrite Z.abs_eq by exact Hc. rewrite app_nil_l.
  set (I := if c / 100 =? 0 then ["0"%char] else decimal_digits (c / 100)).
  assert (HI : I <> [] /\ Forall is_digit I /\ fold_left dstep I 0 = c / 100).
  { unfold I; destruct (c / 100 =? 0) eqn:E.
    - apply Z.eqb_eq in E. rewrite E. split; [discriminate|].
      split; [constructor; [unfold is_digit; simpl; discriminate | constructor] | reflexivity].
    - apply Z.eqb_neq in E.
      assert (Hp : 0 < c / 100) by (pose proof (Z.div_pos c 100); lia).
      destruct (decimal_digits_spec _ Hp) as (H1 & H2 & _).
      split; [apply decimal_digits_ne; exact Hp | split; assumption]. }
  destruct HI as (HI1 & HI2 & HI3).
  pose proof (Z.mod_pos_bound c 100 ltac:(lia)) as Hm100.
  pose proof (Z.mod_pos_bound c 10 ltac:(lia)) as Hm10.
  assert (Hd1 : 0 <= c mod 100 / 10 < 10) by (split; [apply Z.div_pos | apply Z.div_lt_upper_bound]; lia).
  rewrite parse_point.
  - f_equal. f_equal.
    rewrite fold_left_app, HI3. cbn [fold_left]. unfold dstep.
    rewrite !digit_char_value by lia.
    pose proof (Z.div_mod c 100 ltac:(lia)).
    pose proof (Z.div_mod (c mod 100) 10 ltac:(lia)).
    assert (c mod 10 = c mod 100 mod 10).
    { symmetry; apply Z.mod_mod_divide; exists 10; reflexivity. }
    pose proof (Z.mod_pos_bound (c mod 100) 10 ltac:(lia)). lia.
  - exact HI1.
  - exact HI2.
  - constructor; [unfold is_digit; rewrite digit_char_value by lia; discriminate|].
    constructor; [unfold is_digit; rewrite digit_char_value by lia; discriminate|constructor].
Qed.

Lemma round_to_double_Qeq p q : Qeq p q -> round_to_double p = round_to_double q.
Proof. intros H. unfold round_to_double. rewrite (Qred_complete p q H). reflexivity. Qed.

Lemma parseFloat_cents_text c :
  0 <= c -> parseFloat (cents_text c) = round_to_double (c # 100).
Proof.
  intros Hc. unfold parseFloat. rewrite cents_text_parse by exact Hc. reflexivity.
Qed.

Lemma digit_not_special c :
  is_digit c -> Ascii.eqb c "N" = false /\ Ascii.eqb c "I" = false /\ Ascii.eqb c "-" = false.
Proof.
  unfold is_digit; destruct c as [b0 b1 b2 b3 b4 b5 b6 b7].
  destruct b0, b1, b2, b3, b4, b5, b6, b7; intros H;
    try (split; [reflexivity | split; reflexivity]);
    exfalso; apply H; reflexivity.
Qed.

Lemma numeric_in_digit_start c l :
  is_digit c ->
  numeric_in (string_of_list_ascii (c :: l)) =
  match parse_decimal (c :: l) with Some (m, e) => Some (NumDec m e) | None => None end.
Proof.
  intros Hc. destruct (digit_not_special c Hc) as (H1 & H2 & H3).
  unfold numeric_in. cbn [string_of_list_ascii].
  replace (String.eqb (String c (string_of_list_ascii l)) "NaN") with false
    by (simpl; rewrite H1; reflexivity).
  replace (String.eqb (String c (string_of_list_ascii l)) "Infinity") with false
    by (simpl; rewrite H2; reflexivity).
  replace (String.eqb (String c (string_of_list_ascii l)) "-Infinity") with false
    by (simpl; rewrite H3; reflexivity).
  change (String c (string_of_list_ascii l)) with (string_of_list_ascii (c :: l)).
  rewrite list_ascii_of_string_of_list_ascii. reflexivity.
Qed.

Lemma js_format_head s n k :
  1 <= k -> 10 ^ (k - 1) <= s < 10 ^ k ->
  exists c l, js_format_chars s n k = c :: l /\ is_digit c.
Proof.
  intros Hk Hs.
  assert (Hs0 : 0 < s) by (pose proof (Z.pow_pos_nonneg 10 (k - 1)); lia).
  destruct (decimal_digits_spec s Hs0) as (FD & _ & _).
  pose proof (decimal_digits_ne s Hs0) as Dne.
  unfold js_format_chars.
  destruct (decimal_digits s) as [|d D] eqn:ED; [congruence|].
  inversion FD as [|? ? Hd _]; subst.
  destruct ((k <=? n) && (n <=? 21)) eqn:C1.
  { exists d; eexists; split; [reflexivity | exact Hd]. }
  destruct ((0 <? n) && (n <=? 21)) eqn:C2.
  { apply andb_true_iff in C2 as [C2 _]; apply Z.ltb_lt in C2.
    destruct (Z.to_nat n) as [|j] eqn:Ej; [lia|].
    exists d; eexists; split; [reflexivity | exact Hd]. }
  destruct ((-6 <? n) && (n <=? 0)).
  { exists "0"%char; eexists; split; [reflexivity | unfold is_digit; simpl; discriminate]. }
  destruct (k =? 1); exists d; eexists; split; [reflexivity | exact Hd | reflexivity | exact Hd].
Qed.

Lemma numeric_value_js_format s n k :
  1 <= k -> 10 ^ (k - 1) <= s < 10 ^ k ->
  exists q, numeric_value (js_format s n k) = Some q /\ Qeq q (dec_Q s (n - k)).
Proof.
  intros Hk Hs.
  destruct (js_format_parse s n k Hk Hs) as (m & e & Hp & Hq).
  destruct (js_format_head s n k Hk Hs) as (c & l & Hl & Hc).
  unfold numeric_value, js_format. rewrite Hl, numeric_in_digit_start by exact Hc.
  rewrite <- Hl, Hp. eauto.
Qed.

Lemma SFeqb_finite_refl b m e : SFeqb (S754_finite b m e) (S754_finite b m e) = true.
Proof.
  unfold SFeqb, SFcompare. rewrite Z.compare_refl, Pos.compare_cont_refl.
  destruct b; reflexivity.
Qed.

Lemma js_to_string_round_trip x str q :
  js_number_to_string x str -> SFleb (S754_zero false) x = true ->
  numeric_value str = Some q -> SFeqb (round_to_double q) x = true.
Proof.
  intros Hx Hnn Hq. destruct x as [b|b| |b m e]; cbn [js_number_to_string] in Hx.
  - subst str. vm_compute in Hq. injection Hq as <-. destruct b; reflexivity.
  - subst str. destruct b; vm_compute in Hq; discriminate.
  - discriminate.
  - destruct b; [discriminate|].
    destruct Hx as (s & n & k & (Hk & Hs & Hr & _) & ->).
    destruct (numeric_value_js_format s n k Hk Hs) as (q' & Hq' & Heq).
    change ("" ++ js_format s n k) with (js_format s n k) in Hq.
    rewrite Hq' in Hq. injection Hq as <-.
    rewrite (round_to_double_Qeq _ _ Heq), Hr. apply SFeqb_finite_refl.
Qed.

(** ** Claims *)

(** C1. For a user of a reachable store whose [subscription_plan_id] names an
    existing plan with [max_api_keys = N], [createApiKey] fails with
    QuotaExceededError exactly when the user already has at least [N] active
    keys; below [N] it succeeds, and the new key is active, has never been
    used ([last_used_at = null]) and is appended to the table. *)
Theorem createApiKey_quota st uid u pid plan N key_hash name now :
  reachable st ->
  find_user st uid = Some u ->
  u_subscription_plan_id u = Some pid ->
  find_plan st pid = Some plan ->
  sp_max_api_keys plan = Some N ->
  (fst (createApiKey (mkCreateApiKeyInput uid key_hash name) now st) = Err QuotaExceededError
     <-> active_key_count st uid >= N) /\
  (active_key_count st uid < N ->
     exists k,
       createApiKey (mkCreateApiKeyInput uid key_hash name) now st =
         (Ok k, set_api_keys (mkTable (rows (api_keys st) ++ [k]) (seq (api_keys st) + 1)) st) /\
       ak_user_id k = uid /\ ak_is_active k = true /\ ak_last_used_at k = None).
Proof.
  intros Hr Hf Hu Hp Hm.
  pose proof (reachable_wf st Hr) as Hwf.
  pose proof (find_plan_pos st pid plan Hwf Hp) as Hpos.
  rewrite (createApiKey_user (mkCreateApiKeyInput uid key_hash name) now st u Hf).
  rewrite (check_quota_limited (mkCreateApiKeyInput uid key_hash name) u st pid plan N
             Hu ltac:(lia) Hp Hm).
  destruct Hwf as (_ & _ & Hk & _).
  cbn [cak_user_id cak_key_hash cak_name].
  destruct (active_key_count st uid >=? N) eqn:E; cbv beta iota.
  - apply Z.geb_le in E; split; [split; [intros _; lia | reflexivity] | intros; lia].
  - rewrite (insert_api_key_ok st uid key_hash name now Hk).
    rewrite Z.geb_leb, Z.leb_gt in E; split; [simpl; split; [discriminate | lia] |].
    intros _; eexists; split; [reflexivity|]; simpl; auto.
Qed.

(** Two keys are created, the third one is refused; after deactivating one
    key a third one is accepted. *)
Example quota_scenario :
  let st1 := snd (createApiKey (key_input "h1") 12 quota_store) in
  let st2 := snd (createApiKey (key_input "h2") 13 st1) in
  fst (createApiKey (key_input "h3") 14 st2) = Err QuotaExceededError /\
  (let st3 := snd (updateApiKey (mkUpdateApiKeyInput 1 None (Some false)) 15 st2) in
   exists k, fst (createApiKey (key_input "h3") 16 st3) = Ok k).
Proof. vm_compute; split; [reflexivity | eexists; reflexivity]. Qed.

Lemma reachable_quota_store : reachable quota_store.
Proof. apply reachable_exec_all; constructor. Qed.

Lemma createApiKey_quota_witness :
  reachable quota_store /\
  ((fst (createApiKey (mkCreateApiKeyInput 1 "h1" "key") 12 quota_store) = Err QuotaExceededError
      <-> active_key_count quota_store 1 >= 2) /\
   (active_key_count quota_store 1 < 2 ->
      exists k,
        createApiKey (mkCreateApiKeyInput 1 "h1" "key") 12 quota_store =
          (Ok k, set_api_keys (mkTable (rows (api_keys quota_store) ++ [k])
                                       (seq (api_keys quota_store) + 1)) quota_store) /\
        ak_user_id k = 1 /\ ak_is_active k = true /\ ak_last_used_at k = None)).
Proof.
  split; [exact reachable_quota_store|].
  apply (createApiKey_quota quota_store 1 (mkUser 1 "u@example.com" "U" 11 11 (Some 1)) 1
           (mkPlan 1 "Basic" None "9.99" (Some 2) None 10) 2 "h1" "key" 12).
  - exact reachable_quota_store.
  - vm_compute; reflexivity.
  - reflexivity.
  - vm_compute; reflexivity.
  - reflexivity.
Defined.

(** The quota check when the user's plan id names no plan. *)
Lemma check_quota_dangling i u st pid :
  u_subscription_plan_id u = Some pid -> find_plan st pid = None ->
  check_api_key_quota i u st = (Ok tt, st).
Proof.
  intros Hu Hf; unfold check_api_key_quota, truthy_num; rewrite Hu.
  destruct (pid =? 0); simpl; [reflexivity|].
  unfold find_plan in Hf; unfold bind, select.
  destruct (filter _ _); [reflexivity | discriminate].
Qed.

(** [createApiKey] for a user whose plan does not exist: no quota check. *)
Lemma createApiKey_unlimited st uid u pid kh nm now :
  wf_store st ->
  find_user st uid = Some u ->
  u_subscription_plan_id u = Some pid ->
  find_plan st pid = None ->
  createApiKey (mkCreateApiKeyInput uid kh nm) now st =
  (Ok (mkApiKey (seq (api_keys st)) uid kh nm true now None),
   set_api_keys (mkTable (rows (api_keys st) ++
       [mkApiKey (seq (api_keys st)) uid kh nm true now None])
       (seq (api_keys st) + 1)) st).
Proof.
  intros (_ & _ & Hk & _) Hf Hu Hp.
  rewrite (createApiKey_user (mkCreateApiKeyInput uid kh nm) now st u Hf).
  rewrite (check_quota_dangling (mkCreateApiKeyInput uid kh nm) u st pid Hu Hp).
  cbn [cak_user_id cak_key_hash cak_name].
  apply insert_api_key_ok; exact Hk.
Qed.

Lemma active_key_count_append st uid k :
  ak_user_id k = uid -> ak_is_active k = true ->
  active_key_count (set_api_keys (mkTable (rows (api_keys st) ++ [k]) (seq (api_keys st) + 1)) st) uid
  = active_key_count st uid + 1.
Proof.
  intros Hu Ha; unfold active_key_count; simpl.
  rewrite count_app, count_single, Hu, Ha, Z.eqb_refl; simpl; lia.
Qed.

(** C4. For a user of a reachable store whose [subscription_plan_id] names no
    existing plan, any sequence of [createApiKey] calls succeeds: no call
    raises QuotaExceededError (nor any other error), every created key is
    active, and the user's active-key count grows by the number of calls. *)
Theorem createApiKey_dangling_plan_unlimited st uid u pid ks :
  reachable st ->
  find_user st uid = Some u ->
  u_subscription_plan_id u = Some pid ->
  find_plan st pid = None ->
  Forall (fun r => exists k, r = Ok k /\ ak_is_active k = true) (fst (create_keys uid ks st)) /\
  active_key_count (snd (create_keys uid ks st)) uid
    = active_key_count st uid + Z.of_nat (List.length ks).
Proof.
  revert st; induction ks as [|[[kh nm] now] ks IH]; intros st Hr Hf Hu Hp.
  - simpl; split; [constructor | lia].
  - simpl create_keys.
    rewrite (createApiKey_unlimited st uid u pid kh nm now (reachable_wf st Hr) Hf Hu Hp).
    set (st1 := set_api_keys _ st).
    assert (Hr1 : reachable st1).
    { assert (E : st1 = exec (ReqCreateApiKey (mkCreateApiKeyInput uid kh nm)) now st).
      { simpl; rewrite (createApiKey_unlimited st uid u pid kh nm now (reachable_wf st Hr) Hf Hu Hp).
        reflexivity. }
      rewrite E; constructor; exact Hr. }
    destruct (IH st1 Hr1 Hf Hu Hp) as [IH1 IH2].
    destruct (create_keys uid ks st1) as [rs st2] eqn:E; simpl in *.
    split.
    + constructor; [eexists; split; reflexivity | exact IH1].
    + rewrite IH2; unfold st1; rewrite active_key_count_append by reflexivity; lia.
Qed.

Lemma createApiKey_dangling_plan_unlimited_witness :
  reachable quota_store /\
  Forall (fun r => exists k, r = Ok k /\ ak_is_active k = true)
    (fst (create_keys 1 [("a", "k1", 20); ("b", "k2", 21); ("c", "k3", 22)]
       (snd (updateUser (mkUpdateUserInput 1 None None (Some (Some 999))) 19 quota_store)))) /\
  active_key_count
    (snd (create_keys 1 [("a", "k1", 20); ("b", "k2", 21); ("c", "k3", 22)]
       (snd (updateUser (mkUpdateUserInput 1 None None (Some (Some 999))) 19 quota_store)))) 1
  = active_key_count
      (snd (updateUser (mkUpdateUserInput 1 None None (Some (Some 999))) 19 quota_store)) 1
    + Z.of_nat (List.length [("a", "k1", 20); ("b", "k2", 21); ("c", "k3", 22)]).
Proof.
  split; [exact reachable_quota_store|].
  apply (createApiKey_dangling_plan_unlimited _ 1 (mkUser 1 "u@example.com" "U" 11 19 (Some 999)) 999).
  - exact (reachable_exec _ (ReqUpdateUser (mkUpdateUserInput 1 None None (Some (Some 999)))) 19
             reachable_quota_store).
  - vm_compute; reflexivity.
  - reflexivity.
  - vm_compute; reflexivity.
Defined.

Lemma filter_map_update {A} (p : A -> bool) f l :
  (forall r, p (f r) = p r) ->
  filter p (map (fun r => if p r then f r else r) l) = map f (filter p l).
Proof.
  intros Hf; induction l as [|x l IH]; simpl; [reflexivity|].
  destruct (p x) eqn:E; simpl; [rewrite Hf, E, IH | rewrite E, IH]; reflexivity.
Qed.

(** An update of [users] that keeps every email cannot violate the unique
    constraint of a store where emails are unique. *)
Lemma update_users_keep_email st p f :
  emails_unique (rows (users st)) ->
  (forall r, In r (rows (users st)) -> p r = true -> u_email (f r) = u_email r) ->
  update users set_users user_same_email p f st =
  (Ok (map f (filter p (rows (users st)))),
   set_users (mkTable (map (fun r => if p r then f r else r) (rows (users st)))
                      (seq (users st))) st).
Proof.
  intros Hu Hf; unfold update.
  match goal with |- (if ?b then _ else _) = _ => replace b with false; [reflexivity|] end.
  symmetry; apply not_true_iff_false; intros E.
  apply existsb_exists in E; destruct E as [x [Hx E]].
  apply in_map_iff in Hx; destruct Hx as [y [<- Hy]]; apply filter_In in Hy; destruct Hy as [Hy Hpy].
  apply Nat.ltb_lt in E; rewrite count_map in E.
  rewrite (count_ext _ (user_same_email y)) in E.
  - specialize (Hu y Hy); lia.
  - intros z Hz; unfold user_same_email; rewrite (Hf y Hy Hpy).
    destruct (p z) eqn:Ez; [rewrite (Hf z Hz Ez)|]; reflexivity.
Qed.

(** The bind of the plan id of an [updateUser] input. *)
Lemma updateUser_plan_param i st :
  param_int4_opt (match uu_subscription_plan_id i with Some p => p | None => None end) st =
  (if plan_param_ok i then Ok tt else Err OutOfRangeError, st).
Proof.
  unfold plan_param_ok, param_int4_opt, param_int4.
  destruct (uu_subscription_plan_id i) as [[p|]|]; [destruct (int4_ok p)|..]; reflexivity.
Qed.

(** [updateUser] without an email: the existence check, the bind of the
    plan id, then the update. *)
Lemma updateUser_no_email i now st u :
  int4_ok (uu_id i) = true ->
  find_user st (uu_id i) = Some u -> uu_email i = None ->
  updateUser i now st =
  if plan_param_ok i then
    match update users set_users user_same_email (fun x => u_id x =? uu_id i)
            (apply_user_update i now) st with
    | (Ok res, st') => (Ok (first res), st')
    | (Err e, st') => (Err e, st')
    end
  else (Err OutOfRangeError, st).
Proof.
  intros Hi Hf He; unfold find_user in Hf; unfold updateUser, bind, select.
  unfold param_int4 at 1; rewrite Hi; cbn [ret].
  destruct (filter _ _) as [|x l]; [discriminate|].
  rewrite He; cbn [ret]; rewrite updateUser_plan_param.
  destruct (plan_param_ok i); reflexivity.
Qed.

Lemma apply_user_update_id i now r : u_id (apply_user_update i now r) = u_id r.
Proof. reflexivity. Qed.

(** C10 (counterexample). A plan id outside the range of the integer column
    is refused by the store's bind: setting user 1's [subscription_plan_id]
    to 2147483648 fails with OutOfRangeError and writes nothing. *)
Lemma updateUser_plan_out_of_range_counterexample :
  find_user quota_store 1 = Some (mkUser 1 "u@example.com" "U" 11 11 (Some 1)) /\
  updateUser (mkUpdateUserInput 1 None None (Some (Some 2147483648))) 19 quota_store
  = (Err OutOfRangeError, quota_store).
Proof. split; vm_compute; reflexivity. Qed.

(** C10 (amended). [updateUser] does not check that the plan exists: in a
    reachable store, setting an existing user's [subscription_plan_id] to
    any [p] in the range of the integer column succeeds and stores [p].
    When no plan [p] exists, [createUser] with the same plan id fails with
    NotFoundError, and [createApiKey] for the updated user then always
    succeeds (the dangling plan is an unlimited quota). *)
Theorem updateUser_no_plan_check st uid u p now :
  reachable st ->
  find_user st uid = Some u ->
  int4_ok uid = true ->
  int4_ok p = true ->
  exists u',
    fst (updateUser (mkUpdateUserInput uid None None (Some (Some p))) now st) = Ok (Some u') /\
    u_subscription_plan_id u' = Some p /\
    find_user (snd (updateUser (mkUpdateUserInput uid None None (Some (Some p))) now st)) uid
      = Some u' /\
    (find_plan st p = None ->
       (forall email name now', fst (createUser (mkCreateUserInput email name (Some p)) now' st)
                                  = Err NotFoundError) /\
       (forall kh nm now', exists k,
          fst (createApiKey (mkCreateApiKeyInput uid kh nm) now'
                 (snd (updateUser (mkUpdateUserInput uid None None (Some (Some p))) now st)))
          = Ok k)).
Proof.
  intros Hr Hf Hi Hp.
  pose proof (reachable_wf st Hr) as Hwf.
  set (i := mkUpdateUserInput uid None None (Some (Some p))).
  assert (Hst' : reachable (snd (updateUser i now st))) by exact (reachable_exec st (ReqUpdateUser i) now Hr).
  pose proof (reachable_wf _ Hst') as Hwf'.
  revert Hst' Hwf'.
  rewrite (updateUser_no_email i now st u Hi Hf eq_refl).
  replace (plan_param_ok i) with true by (unfold plan_param_ok; simpl; rewrite Hp; reflexivity).
  destruct Hwf as (Hpl & Hu & Hk & Hs & Ht & He).
  rewrite (update_users_keep_email st _ (apply_user_update i now) He (fun r _ _ => eq_refl)).
  intros _ Hwf'; simpl snd in Hwf'.
  change (uu_id i) with uid in *.
  unfold find_user in Hf |- *.
  destruct (filter (fun x => u_id x =? uid) (rows (users st))) as [|y l] eqn:Ey; [discriminate|].
  injection Hf as ->.
  exists (apply_user_update i now u); simpl fst; simpl snd.
  split; [reflexivity|]; split; [reflexivity|]; split.
  - simpl rows; rewrite filter_map_update by (intros; reflexivity).
    rewrite Ey; reflexivity.
  - intros Hnp; split.
    + intros email name now'; unfold createUser, bind, select, param_int4; simpl.
      rewrite Hp; simpl.
      unfold find_plan in Hnp.
      destruct (filter (fun q => sp_id q =? p) (rows (subscription_plans st)));
        [reflexivity|discriminate].
    + intros kh nm now'.
      rewrite (createApiKey_unlimited _ uid (apply_user_update i now u) p kh nm now' Hwf').
      * eexists; reflexivity.
      * unfold find_user; simpl rows; rewrite filter_map_update by (intros; reflexivity).
        rewrite Ey; reflexivity.
      * reflexivity.
      * exact Hnp.
Qed.

Lemma updateUser_no_plan_check_witness :
  reachable quota_store /\ find_user quota_store 1 = Some (mkUser 1 "u@example.com" "U" 11 11 (Some 1)) /\
  int4_ok 1 = true /\ int4_ok 999 = true /\
  exists u',
    fst (updateUser (mkUpdateUserInput 1 None None (Some (Some 999))) 19 quota_store) = Ok (Some u') /\
    u_subscription_plan_id u' = Some 999 /\
    find_user (snd (updateUser (mkUpdateUserInput 1 None None (Some (Some 999))) 19 quota_store)) 1
      = Some u' /\
    (find_plan quota_store 999 = None ->
       (forall email name now', fst (createUser (mkCreateUserInput email name (Some 999)) now' quota_store)
                                  = Err NotFoundError) /\
       (forall kh nm now', exists k,
          fst (createApiKey (mkCreateApiKeyInput 1 kh nm) now'
                 (snd (updateUser (mkUpdateUserInput 1 None None (Some (Some 999))) 19 quota_store)))
          = Ok k)).
Proof.
  split; [exact reachable_quota_store|]; split; [vm_compute; reflexivity|].
  split; [reflexivity|]; split; [reflexivity|].
  apply (updateUser_no_plan_check quota_store 1 (mkUser 1 "u@example.com" "U" 11 11 (Some 1)) 999 19).
  - exact reachable_quota_store.
  - vm_compute; reflexivity.
  - reflexivity.
  - reflexivity.
Defined.

(** The call-session table is written by [createCallSession] and
    [endCallSession] only. *)
Lemma sessions_frame r now st :
  (forall i, r <> ReqCreateCallSession i) -> (forall i, r <> ReqEndCallSession i) ->
  call_sessions (exec r now st) = call_sessions st.
Proof.
  intros Hc He.
  destruct r as [i|i|i|i|i|i|i|i|i];
    [ | | | | | | exfalso; exact (Hc i eq_refl) | exfalso; exact (He i eq_refl) | ];
    simpl exec;
    match goal with
    | |- call_sessions (snd (?m st)) = _ =>
        enough (K : keeps (fun s => call_sessions s = call_sessions st) m)
          by exact (K st eq_refl)
    end;
    repeat keeps_step.
Qed.

Lemma first_app {A} (l l' : list A) x : first l = Some x -> first (l ++ l') = Some x.
Proof. destruct l; simpl; [discriminate | auto]. Qed.

Lemma find_session_createCallSession st i now id s :
  find_session st id = Some s -> find_session (snd (createCallSession i now st)) id = Some s.
Proof.
  intros H; unfold createCallSession, bind, select, param_int4.
  destruct (int4_ok (ccs_user_id i)); simpl; [|exact H].
  destruct (filter _ _); simpl; [exact H|].
  unfold insert; destruct (existsb _ _); simpl; [exact H|].
  unfold find_session in *; simpl; rewrite filter_app; apply first_app; exact H.
Qed.

Lemma find_session_endCallSession st i now id s t :
  find_session st id = Some s -> cs_end_time s = Some t ->
  find_session (snd (endCallSession i now st)) id = Some s.
Proof.
  intros H Ht; unfold endCallSession, bind, select; simpl.
  destruct (Z.eqb_spec (ecs_id i) id) as [<-|Hne].
  - unfold find_session in *.
    destruct (filter _ _) as [|x l] eqn:E; [discriminate|]; simpl in H.
    injection H as ->; rewrite Ht; simpl; rewrite E; reflexivity.
  - destruct (filter _ _) as [|x l]; simpl; [exact H|].
    destruct (cs_end_time x); simpl; [exact H|].
    unfold update; destruct (existsb _ _); simpl; [exact H|].
    unfold find_session in *; simpl.
    rewrite <- H; f_equal; clear H.
    induction (rows (call_sessions st)) as [|y ys IH]; simpl; [reflexivity|].
    destruct (cs_id y =? ecs_id i) eqn:E1; simpl.
    + apply Z.eqb_eq in E1.
      assert (E2 : (cs_id y =? id) = false) by (apply Z.eqb_neq; congruence).
      rewrite E2; exact IH.
    + destruct (cs_id y =? id); [f_equal|]; exact IH.
Qed.

Lemma find_session_exec_ended st r now id s t :
  find_session st id = Some s -> cs_end_time s = Some t ->
  find_session (exec r now st) id = Some s.
Proof.
  intros H Ht.
  destruct r as [i|i|i|i|i|i|i|i|i];
    try (unfold find_session in *; rewrite sessions_frame; [exact H | intros ? ? ; discriminate | intros ? ?; discriminate]).
  - apply find_session_createCallSession; exact H.
  - eapply find_session_endCallSession; eassumption.
Qed.

(** C2. Once a call session's [end_time] is set, [endCallSession] on it fails
    with InvalidStateError whatever the new end time, leaving the store
    unchanged, and no sequence of requests changes the session any more. *)
Theorem endCallSession_end_time_immutable st id s t :
  find_session st id = Some s -> cs_end_time s = Some t ->
  (forall t' now, endCallSession (mkEndCallSessionInput id t') now st = (Err InvalidStateError, st)) /\
  (forall rs, find_session (exec_all rs st) id = Some s).
Proof.
  intros H Ht; split.
  - intros t' now; unfold endCallSession, bind, select; simpl.
    unfold find_session in H.
    destruct (filter _ _) as [|x l]; [discriminate|]; simpl in H.
    injection H as ->; rewrite Ht; reflexivity.
  - intros rs; revert st H; induction rs as [|[r now] rs IH]; intros st H; simpl; [exact H|].
    apply IH; eapply find_session_exec_ended; eassumption.
Qed.

Lemma endCallSession_end_time_immutable_witness :
  find_session ended_store 1 = Some (mkCallSession 1 "CA1" 1 30 (Some 40) 31) /\
  ((forall t' now, endCallSession (mkEndCallSessionInput 1 t') now ended_store
                     = (Err InvalidStateError, ended_store)) /\
   (forall rs, find_session (exec_all rs ended_store) 1
                 = Some (mkCallSession 1 "CA1" 1 30 (Some 40) 31))).
Proof.
  split; [vm_compute; reflexivity|].
  apply (endCallSession_end_time_immutable ended_store 1 (mkCallSession 1 "CA1" 1 30 (Some 40) 31) 40).
  - vm_compute; reflexivity.
  - reflexivity.
Defined.

Lemma createTurn_session i now st :
  createTurn i now st =
  if int4_ok (ct_call_session_id i) then
    match find_session st (ct_call_session_id i) with
    | None => (Err NotFoundError, st)
    | Some s =>
        match cs_end_time s with
        | Some _ => (Err InvalidStateError, st)
        | None =>
            if latency_ok i then
              insert turns set_turns turn_clash
                (fun id => mkTurn id (ct_call_session_id i) (ct_role i)
                                  (ct_text i) (ct_latency_ms i) now) st
            else (Err OutOfRangeError, st)
        end
    end
  else (Err OutOfRangeError, st).
Proof.
  unfold createTurn, find_session, bind, select, param_int4.
  destruct (int4_ok (ct_call_session_id i)); cbn [ret throw]; [|reflexivity].
  destruct (filter _ _) as [|s l]; cbn [first ret throw]; [reflexivity|].
  destruct (cs_end_time s); [reflexivity|].
  unfold latency_ok, param_int4_opt, param_int4.
  destruct (ct_latency_ms i) as [l'|]; [destruct (int4_ok l')|]; reflexivity.
Qed.




Lemma count_cons {A} (p : A -> bool) a l :
  count p (a :: l) = ((if p a then 1 else 0) + count p l)%nat.
Proof. unfold count; simpl; destruct (p a); reflexivity. Qed.

Lemma count_two {A} (p : A -> bool) l x y :
  In x l -> In y l -> x <> y -> p x = true -> p y = true -> (2 <= count p l)%nat.
Proof.
  induction l as [|a l IH]; intros Hx Hy Hne Px Py; [destruct Hx|].
  rewrite count_cons.
  destruct Hx as [<-|Hx], Hy as [<-|Hy].
  - congruence.
  - rewrite Px; pose proof (count_In p l y Hy Py); lia.
  - rewrite Py; pose proof (count_In p l x Hx Px); lia.
  - specialize (IH Hx Hy Hne Px Py); lia.
Qed.

Lemma NoDup_map_inj {A B} (f : A -> B) l x y :
  NoDup (map f l) -> In x l -> In y l -> f x = f y -> x = y.
Proof.
  induction l as [|a l IH]; intros Hn Hx Hy E; [destruct Hx|].
  simpl in Hn; inversion Hn as [|? ? Hnot Hn']; subst.
  destruct Hx as [<-|Hx], Hy as [<-|Hy]; auto.
  - exfalso; apply Hnot; rewrite E; apply in_map; exact Hy.
  - exfalso; apply Hnot; rewrite <- E; apply in_map; exact Hx.
Qed.

(** [updateUser] with an email: the existence check, the uniqueness
    pre-check on a non-empty email, then the update. *)
Lemma updateUser_with_email i now st u e :
  int4_ok (uu_id i) = true ->
  In u (rows (users st)) -> u_id u = uu_id i -> uu_email i = Some e ->
  updateUser i now st =
  if truthy_string e
     && negb (match filter (fun x => String.eqb (u_email x) e && negb (u_id x =? uu_id i))
                     (rows (users st)) with [] => true | _ => false end)
  then (Err ConflictError, st)
  else if plan_param_ok i then
    match update users set_users user_same_email (fun x => u_id x =? uu_id i)
            (apply_user_update i now) st with
    | (Ok res, st') => (Ok (first res), st')
    | (Err e, st') => (Err e, st')
    end
  else (Err OutOfRangeError, st).
Proof.
  intros Hi Hin Hid He; unfold updateUser, bind, select.
  unfold param_int4 at 1; rewrite Hi; cbn [ret].
  assert (Hne : filter (fun x => u_id x =? uu_id i) (rows (users st)) <> []).
  { intros E; assert (In u (filter (fun x => u_id x =? uu_id i) (rows (users st))))
      by (apply filter_In; split; [exact Hin | apply Z.eqb_eq; exact Hid]).
    rewrite E in H; destruct H. }
  destruct (filter (fun x => u_id x =? uu_id i) (rows (users st))); [congruence|].
  rewrite He; destruct (truthy_string e); cbn [andb negb ret].
  - destruct (filter _ _); cbn [andb negb ret throw]; [|reflexivity].
    rewrite updateUser_plan_param; destruct (plan_param_ok i); reflexivity.
  - rewrite updateUser_plan_param; destruct (plan_param_ok i); reflexivity.
Qed.

(** C5. Updating user [U] (whose id, like every stored id, is in the range
    of the integer column) with the email of another user [V] fails and
    leaves the store, hence [U]'s row (email and [updated_at] included),
    unchanged; for an email the input schema admits (non-empty) the failure
    is the ConflictError of the pre-check, for [""] the pre-check is skipped
    (falsy) and the update is rejected by the store.  In a reachable store,
    updating [U] with its own current email never raises ConflictError, and
    it succeeds when the [subscription_plan_id] given, if any, is in the
    range of its column. *)
Theorem updateUser_email_conflict st U V name plan now :
  In U (rows (users st)) -> In V (rows (users st)) -> u_id V <> u_id U ->
  int4_ok (u_id U) = true ->
  (exists err,
     updateUser (mkUpdateUserInput (u_id U) (Some (u_email V)) name plan) now st = (Err err, st)) /\
  (u_email V <> "" ->
     updateUser (mkUpdateUserInput (u_id U) (Some (u_email V)) name plan) now st
     = (Err ConflictError, st)) /\
  (reachable st ->
     fst (updateUser (mkUpdateUserInput (u_id U) (Some (u_email U)) name plan) now st)
       <> Err ConflictError /\
     (plan_param_ok (mkUpdateUserInput (u_id U) (Some (u_email U)) name plan) = true ->
        exists u', fst (updateUser (mkUpdateUserInput (u_id U) (Some (u_email U)) name plan) now st)
                   = Ok (Some u'))).
Proof.
  intros HU HV Hne Hi.
  set (i := mkUpdateUserInput (u_id U) (Some (u_email V)) name plan).
  assert (Hpre : filter (fun x => String.eqb (u_email x) (u_email V) && negb (u_id x =? uu_id i))
                        (rows (users st)) <> []).
  { intros E.
    assert (Hin : In V (filter (fun x => String.eqb (u_email x) (u_email V) && negb (u_id x =? uu_id i))
                              (rows (users st)))).
    { apply filter_In; split; [exact HV|].
      rewrite String.eqb_refl; simpl; apply Z.eqb_neq in Hne; rewrite Hne; reflexivity. }
    rewrite E in Hin; destruct Hin. }
  assert (Hupd : exists st'', update users set_users user_same_email (fun x => u_id x =? uu_id i)
                     (apply_user_update i now) st = (Err UniqueViolation, st'') /\ st'' = st).
  { unfold update.
    match goal with |- exists _, (if ?b then _ else _) = _ /\ _ => replace b with true end;
      [eexists; split; reflexivity|].
    symmetry; apply existsb_exists.
    exists (apply_user_update i now U); split.
    - apply in_map, filter_In; split; [exact HU | apply Z.eqb_refl].
    - apply Nat.ltb_lt.
      apply (count_two _ _ (apply_user_update i now U) V).
      + apply in_map_iff; exists U; split; [simpl uu_id; rewrite Z.eqb_refl; reflexivity | exact HU].
      + apply in_map_iff; exists V; split; [|exact HV].
        simpl uu_id; apply Z.eqb_neq in Hne; rewrite Hne; reflexivity.
      + intros E; apply Hne; rewrite <- E; reflexivity.
      + apply user_same_email_refl.
      + unfold user_same_email; simpl; apply String.eqb_refl. }
  rewrite (updateUser_with_email i now st U (u_email V) Hi HU eq_refl eq_refl).
  destruct Hupd as [st'' [Hupd ->]]; rewrite Hupd.
  destruct (filter _ _) as [|w0 ws0]; [congruence|]; clear Hpre.
  split; [|split].
  - destruct (truthy_string (u_email V)); cbn [andb negb]; [eexists; reflexivity|].
    destruct (plan_param_ok i); eexists; reflexivity.
  - intros Hnz.
    assert (Ht : truthy_string (u_email V) = true).
    { unfold truthy_string; apply negb_true_iff, String.eqb_neq; exact Hnz. }
    rewrite Ht; reflexivity.
  - intros Hr; destruct (reachable_wf st Hr) as (_ & (_ & _ & Hid) & _ & _ & _ & He).
    set (j := mkUpdateUserInput (u_id U) (Some (u_email U)) name plan).
    rewrite (updateUser_with_email j now st U (u_email U) Hi HU eq_refl eq_refl).
    replace (filter (fun x => String.eqb (u_email x) (u_email U) && negb (u_id x =? uu_id j))
                    (rows (users st))) with (@nil User).
    + rewrite andb_false_r.
      rewrite (update_users_keep_email st _ (apply_user_update j now) He).
      * simpl uu_id.
        destruct (filter (fun x => u_id x =? u_id U) (rows (users st))) as [|x xs] eqn:Ef.
        -- assert (In U (filter (fun x => u_id x =? u_id U) (rows (users st))))
             by (apply filter_In; split; [exact HU | apply Z.eqb_refl]).
           rewrite Ef in H; destruct H.
        -- destruct (plan_param_ok j); cbn [fst].
           ++ split; [discriminate | intros _; eexists; reflexivity].
           ++ split; [discriminate | intros E; discriminate E].
      * intros r Hr' Ep; apply Z.eqb_eq in Ep.
        rewrite (NoDup_map_inj u_id _ r U Hid Hr' HU Ep); reflexivity.
    + symmetry.
      destruct (filter _ _) as [|w ws] eqn:Ef; [reflexivity|].
      assert (Hw : In w (filter (fun x => String.eqb (u_email x) (u_email U) && negb (u_id x =? uu_id j))
                                (rows (users st)))) by (rewrite Ef; left; reflexivity).
      apply filter_In in Hw; destruct Hw as [Hw Ew]; apply andb_true_iff in Ew; destruct Ew as [Ew1 Ew2].
      exfalso.
      assert (2 <= count (user_same_email U) (rows (users st)))%nat.
      { apply (count_two _ _ U w HU Hw).
        - intros <-; simpl in Ew2; rewrite Z.eqb_refl in Ew2; discriminate.
        - apply user_same_email_refl.
        - unfold user_same_email; rewrite String.eqb_sym; exact Ew1. }
      specialize (He U HU); lia.
Qed.

Lemma updateUser_email_conflict_witness :
  In (mkUser 1 "u@example.com" "U" 11 11 (Some 1)) (rows (users two_users_store)) /\
  In (mkUser 2 "other@example.com" "V" 12 12 None) (rows (users two_users_store)) /\
  int4_ok 1 = true /\
  ((exists err,
      updateUser (mkUpdateUserInput 1 (Some "other@example.com") None None) 60 two_users_store
      = (Err err, two_users_store)) /\
   ("other@example.com" <> "" ->
      updateUser (mkUpdateUserInput 1 (Some "other@example.com") None None) 60 two_users_store
      = (Err ConflictError, two_users_store)) /\
   (reachable two_users_store ->
      fst (updateUser (mkUpdateUserInput 1 (Some "u@example.com") None None) 60 two_users_store)
        <> Err ConflictError /\
      (plan_param_ok (mkUpdateUserInput 1 (Some "u@example.com") None None) = true ->
         exists u', fst (updateUser (mkUpdateUserInput 1 (Some "u@example.com") None None) 60
                                    two_users_store) = Ok (Some u')))).
Proof.
  split; [vm_compute; left; reflexivity|].
  split; [vm_compute; right; left; reflexivity|].
  split; [reflexivity|].
  apply (updateUser_email_conflict two_users_store (mkUser 1 "u@example.com" "U" 11 11 (Some 1))
           (mkUser 2 "other@example.com" "V" 12 12 None) None None 60).
  - vm_compute; left; reflexivity.
  - vm_compute; right; left; reflexivity.
  - simpl; lia.
  - reflexivity.
Defined.

Lemma updateUser_cases i now st :
  (exists e, updateUser i now st = (Err e, st)) \/
  (find_user st (uu_id i) <> None /\
   updateUser i now st =
     (Ok (first (map (apply_user_update i now)
                   (filter (fun u => u_id u =? uu_id i) (rows (users st))))),
      set_users (mkTable (map (fun u => if u_id u =? uu_id i then apply_user_update i now u else u)
                              (rows (users st))) (seq (users st))) st)).
Proof.
  unfold updateUser, param_int4_opt, param_int4, bind, select, update, throw, ret, find_user.
  destruct (int4_ok (uu_id i)); [|left; eexists; reflexivity].
  destruct (filter (fun u => u_id u =? uu_id i) (rows (users st))) as [|u us] eqn:Ef;
    [left; eexists; reflexivity|].
  assert (Hn : first (u :: us) <> None) by discriminate.
  destruct (uu_subscription_plan_id i) as [[p|]|]; [destruct (int4_ok p)|..];
  destruct (uu_email i) as [e|]; [destruct (truthy_string e)| |destruct (truthy_string e)|
                                  |destruct (truthy_string e)| |destruct (truthy_string e)|];
    cbn [fst snd];
    try (match goal with
         | |- context [filter ?p (rows (users st))] =>
             lazymatch p with
             | (fun u => u_id u =? uu_id i) => fail
             | _ => destruct (filter p (rows (users st))) as [|v vs]
             end
         end; cbn [fst snd]; [|left; eexists; reflexivity]);
    first
      [ left; eexists; reflexivity
      | match goal with |- context [existsb ?f ?l] => destruct (existsb f l) end;
        [left; eexists; reflexivity|right; split; [exact Hn|rewrite Ef; reflexivity]] ].
Qed.

(** The shape of a successful [updateUser]. *)
Lemma updateUser_ok_shape i now st r st' :
  updateUser i now st = (Ok r, st') ->
  exists u l,
    filter (fun x => u_id x =? uu_id i) (rows (users st)) = u :: l /\
    r = Some (apply_user_update i now u) /\
    st' = set_users (mkTable (map (fun x => if u_id x =? uu_id i then apply_user_update i now x else x)
                                  (rows (users st))) (seq (users st))) st.
Proof.
  intros H; destruct (updateUser_cases i now st) as [[e E]|[Hf E]]; rewrite E in H;
    [discriminate H|].
  injection H as <- <-.
  unfold find_user in Hf.
  destruct (filter (fun x => u_id x =? uu_id i) (rows (users st))) as [|u l]; [exfalso; apply Hf; reflexivity|].
  exists u, l; split; [reflexivity|split; reflexivity].
Qed.

(** C7. A successful [updateUser] rewrites the user's row: each field given in
    the input takes the given value ([subscription_plan_id: null] clears the
    plan), each omitted field keeps its value, [id] and [created_at] are
    kept, and [updated_at] becomes the current instant whatever the values
    given; the row is what a later lookup returns, the other users' rows and
    the other tables are untouched. *)
Theorem updateUser_provided_fields_only st i now r st' :
  updateUser i now st = (Ok r, st') ->
  exists u u',
    find_user st (uu_id i) = Some u /\ r = Some u' /\ find_user st' (uu_id i) = Some u' /\
    u_id u' = u_id u /\ u_created_at u' = u_created_at u /\ u_updated_at u' = now /\
    u_email u' = (match uu_email i with Some e => e | None => u_email u end) /\
    u_name u' = (match uu_name i with Some n => n | None => u_name u end) /\
    u_subscription_plan_id u' =
      (match uu_subscription_plan_id i with Some p => p | None => u_subscription_plan_id u end) /\
    (forall x, u_id x <> uu_id i -> (In x (rows (users st')) <-> In x (rows (users st)))) /\
    (exists t, st' = set_users t st).
Proof.
  intros H; destruct (updateUser_ok_shape i now st r st' H) as (u & l & Eu & -> & ->).
  exists u, (apply_user_update i now u).
  split; [unfold find_user; rewrite Eu; reflexivity|].
  split; [reflexivity|].
  split.
  { unfold find_user; simpl rows.
    rewrite filter_map_update by (intros; reflexivity).
    rewrite Eu; reflexivity. }
  do 6 (split; [reflexivity|]).
  split; [|eexists; reflexivity].
  intros x Hx; simpl rows; rewrite in_map_iff; split.
  - intros [y [Ey Hy]].
    destruct (u_id y =? uu_id i) eqn:E.
    + exfalso; apply Hx; rewrite <- Ey; apply Z.eqb_eq; exact E.
    + subst y; exact Hy.
  - intros Hin; exists x; split; [|exact Hin].
    apply Z.eqb_neq in Hx; rewrite Hx; reflexivity.
Qed.

Lemma updateUser_provided_fields_only_witness :
  let i := mkUpdateUserInput 1 None (Some "New") (Some None) in
  let st' := snd (updateUser i 70 quota_store) in
  updateUser i 70 quota_store = (Ok (Some (mkUser 1 "u@example.com" "New" 11 70 None)), st') /\
  exists u u',
    find_user quota_store (uu_id i) = Some u /\ Some (mkUser 1 "u@example.com" "New" 11 70 None) = Some u' /\
    find_user st' (uu_id i) = Some u' /\
    u_id u' = u_id u /\ u_created_at u' = u_created_at u /\ u_updated_at u' = 70 /\
    u_email u' = (match uu_email i with Some e => e | None => u_email u end) /\
    u_name u' = (match uu_name i with Some n => n | None => u_name u end) /\
    u_subscription_plan_id u' =
      (match uu_subscription_plan_id i with Some p => p | None => u_subscription_plan_id u end) /\
    (forall x, u_id x <> uu_id i -> (In x (rows (users st')) <-> In x (rows (users quota_store)))) /\
    (exists t, st' = set_users t quota_store).
Proof.
  intros i st'.
  assert (H : updateUser i 70 quota_store = (Ok (Some (mkUser 1 "u@example.com" "New" 11 70 None)), st'))
    by (vm_compute; reflexivity).
  split; [exact H|].
  exact (updateUser_provided_fields_only quota_store i 70 _ st' H).
Defined.

(** C6 (code bug). [getTurnsByCallSession] orders by [created_at] alone.
    Session 1 of [tie_store] holds the user turn [t1] (id 1) and then the
    assistant turn [t2] (id 2), both with [created_at = 50]; the store may
    answer [[t2; t1]], against insertion order, so not every answer lists
    ties by id. *)
Theorem getTurnsByCallSession_ties_unordered :
  let t1 := mkTurn 1 1 RoleUser None None 50 in
  let t2 := mkTurn 2 1 RoleAssistant (Some "Valid text") (Some 250) 50 in
  filter (fun t => t_call_session_id t =? 1) (rows (turns tie_store)) = [t1; t2] /\
  getTurnsByCallSession 1 tie_store (Ok [t2; t1]) /\
  ~ (forall out, getTurnsByCallSession 1 tie_store out ->
       exists ans, out = Ok ans /\ Sorted created_then_id ans).
Proof.
  intros t1 t2.
  assert (Et : filter (fun t => t_call_session_id t =? 1) (rows (turns tie_store)) = [t1; t2])
    by (vm_compute; reflexivity).
  assert (Hg : getTurnsByCallSession 1 tie_store (Ok [t2; t1])).
  { unfold getTurnsByCallSession.
    destruct (filter (fun s => cs_id s =? 1) (rows (call_sessions tie_store))) eqn:Es;
      [vm_compute in Es; discriminate|].
    rewrite Et. exists [t2; t1]; split; [reflexivity|].
    split; [apply perm_swap|].
    repeat constructor; simpl; lia. }
  split; [exact Et|split; [exact Hg|]].
  intros H.
  destruct (H (Ok [t2; t1]) Hg) as [ans [E Hs]].
  injection E as <-.
  inversion Hs as [|? ? _ Hhd]; subst.
  inversion Hhd as [|? ? Hr]; subst.
  unfold created_then_id, t1, t2 in Hr; simpl in Hr; lia.
Qed.








(** C9. The [createUser] the router imports (the placeholder of
    handlers/create_user.ts) is not the implemented one: with a plan id that
    does not exist the implemented handler fails with [NotFoundError] while
    the placeholder returns a row; with a valid input the implemented handler
    persists a user with a fresh id while the placeholder answers id 1 (the
    id of another, existing user) and stores nothing. *)
Theorem createUser_placeholder_diverges :
  fst (createUser (mkCreateUserInput "a@b.c" "A" (Some 999)) 20 empty_store) = Err NotFoundError /\
  createUser_placeholder (mkCreateUserInput "a@b.c" "A" (Some 999)) 20 empty_store
    = (Ok (mkUser 1 "a@b.c" "A" 20 20 (Some 999)), empty_store) /\
  fst (createUser (mkCreateUserInput "b@example.com" "B" None) 20 quota_store)
    = Ok (mkUser 2 "b@example.com" "B" 20 20 None) /\
  List.length (rows (users (snd (createUser (mkCreateUserInput "b@example.com" "B" None) 20 quota_store)))) = 2%nat /\
  createUser_placeholder (mkCreateUserInput "b@example.com" "B" None) 20 quota_store
    = (Ok (mkUser 1 "b@example.com" "B" 20 20 None), quota_store) /\
  find_user quota_store 1 <> None /\
  ~ (forall i now st, createUser i now st = createUser_placeholder i now st).
Proof.
  split; [vm_compute; reflexivity|].
  split; [reflexivity|].
  split; [vm_compute; reflexivity|].
  split; [vm_compute; reflexivity|].
  split; [reflexivity|].
  split; [vm_compute; discriminate|].
  intros H. specialize (H (mkCreateUserInput "a@b.c" "A" (Some 999)) 20 empty_store).
  vm_compute in H. discriminate.
Qed.

(** ** Further properties of the handlers and queries *)


Lemma createUser_cases i now st :
  let U := mkUser (seq (users st)) (cu_email i) (cu_name i) now now (cu_subscription_plan_id i) in
  let pid_ok := match cu_subscription_plan_id i with
                | Some pid => int4_ok pid = true | None => True end in
  let plan_ok := match cu_subscription_plan_id i with
                 | Some pid => find_plan st pid <> None | None => True end in
  (createUser i now st = (Err OutOfRangeError, st) /\ ~ pid_ok) \/
  (createUser i now st = (Err NotFoundError, st) /\ pid_ok /\ ~ plan_ok) \/
  (createUser i now st = (Err UniqueViolation, set_users (bump (users st)) st) /\ pid_ok /\
   plan_ok /\ existsb (user_clash U) (rows (users st)) = true) \/
  (createUser i now st = (Ok U, set_users (push (users st) U) st) /\ pid_ok /\ plan_ok /\
   existsb (user_clash U) (rows (users st)) = false).
Proof.
  intros U pid_ok plan_ok; subst pid_ok plan_ok.
  unfold createUser, param_int4, bind, select, insert, throw, ret, find_plan.
  destruct (cu_subscription_plan_id i) as [pid|].
  - destruct (int4_ok pid); [|left; split; [reflexivity|discriminate]].
    destruct (filter (fun p => sp_id p =? pid) (rows (subscription_plans st))) as [|p ps].
    + right; left; split; [reflexivity|split; [reflexivity|intros H; apply H; reflexivity]].
    + cbn [fst snd first].
      destruct (existsb _ _) eqn:E; [right; right; left|right; right; right];
        (split; [reflexivity|split; [reflexivity|split; [discriminate|reflexivity]]]).
  - cbn [fst snd first].
    destruct (existsb _ _) eqn:E; [right; right; left|right; right; right];
      (split; [reflexivity|split; [exact I|split; [exact I|reflexivity]]]).
Qed.

Lemma createSubscriptionPlan_cases i now st :
  let P c := mkPlan (seq (subscription_plans st)) (csp_name i) (csp_description i) c
                    (csp_max_api_keys i) (csp_max_monthly_calls i) now in
  (createSubscriptionPlan i now st = (Err ConflictError, st) /\
   filter (fun p => String.eqb (sp_name p) (csp_name i)) (rows (subscription_plans st)) <> []) \/
  (filter (fun p => String.eqb (sp_name p) (csp_name i)) (rows (subscription_plans st)) = [] /\
   ((exists e, plan_params i = Err e /\ createSubscriptionPlan i now st = (Err e, st)) \/
    (exists c, plan_params i = Ok c /\
     ((createSubscriptionPlan i now st =
         (Err UniqueViolation, set_subscription_plans (bump (subscription_plans st)) st) /\
       existsb (plan_clash (P c)) (rows (subscription_plans st)) = true) \/
      (createSubscriptionPlan i now st =
         (Ok (plan_out (P c)), set_subscription_plans (push (subscription_plans st) (P c)) st) /\
       existsb (plan_clash (P c)) (rows (subscription_plans st)) = false))))).
Proof.
  intros P; subst P.
  unfold createSubscriptionPlan, plan_params, param_numeric, param_int4_opt, numeric_10_2,
    param_int4, bind, select, insert, throw, ret.
  destruct (filter _ (rows (subscription_plans st))) as [|p ps] eqn:Ef;
    [|left; split; [reflexivity|discriminate]].
  right; split; [reflexivity|].
  destruct (numeric_in (csp_price i)) as [v|]; cbn beta iota zeta;
    [|left; eexists; split; reflexivity].
  destruct (csp_max_api_keys i) as [a|]; [destruct (int4_ok a)|].
  all: cbn beta iota zeta; try (left; eexists; split; reflexivity).
  all: destruct (csp_max_monthly_calls i) as [b|]; [destruct (int4_ok b)|].
  all: cbn beta iota zeta; try (left; eexists; split; reflexivity).
  all: destruct v as [|neg|m e]; cbn beta iota zeta; try (left; eexists; split; reflexivity).
  all: try (destruct (Z.abs (round_cents m e) <? 10 ^ 10); cbn beta iota zeta;
            [|left; eexists; split; reflexivity]).
  all: right; eexists; split; try reflexivity.
  all: match goal with |- context [existsb ?f ?l] => destruct (existsb f l) end;
         [left|right]; split; reflexivity.
Qed.

Lemma createApiKey_cases i now st :
  let K := mkApiKey (seq (api_keys st)) (cak_user_id i) (cak_key_hash i) (cak_name i) true now None in
  (exists e, createApiKey i now st = (Err e, st)) \/
  (In (cak_user_id i) (map u_id (rows (users st))) /\
   ((createApiKey i now st = (Err UniqueViolation, set_api_keys (bump (api_keys st)) st) /\
     existsb (api_key_clash K) (rows (api_keys st)) = true) \/
    (createApiKey i now st = (Ok K, set_api_keys (push (api_keys st) K) st) /\
     existsb (api_key_clash K) (rows (api_keys st)) = false))).
Proof.
  intros K.
  destruct (find_user st (cak_user_id i)) as [u|] eqn:Hu.
  - rewrite (createApiKey_user i now st u Hu).
    assert (Hq : snd (check_api_key_quota i u st) = st).
    { enough (Kp : keeps (fun s => s = st) (check_api_key_quota i u)) by exact (Kp st eq_refl).
      repeat keeps_step. }
    destruct (check_api_key_quota i u st) as [[[]|e] s1]; cbn [snd] in Hq; subst s1;
      [|left; eexists; reflexivity].
    right; split.
    + apply first_filter_In in Hu; destruct Hu as [Hin E]; apply Z.eqb_eq in E.
      rewrite <- E; apply in_map; exact Hin.
    + unfold insert; subst K.
      match goal with |- context [existsb ?f ?l] => destruct (existsb f l) end;
        [left|right]; split; reflexivity.
  - left; exists NotFoundError.
    unfold find_user in Hu; unfold createApiKey, bind, select, throw.
    destruct (filter _ _); [reflexivity|discriminate].
Qed.

Lemma updateApiKey_cases i now st :
  (exists e, updateApiKey i now st = (Err e, st)) \/
  (exists f, (forall k, ak_id (f k) = ak_id k /\ ak_user_id (f k) = ak_user_id k /\
                        ak_key_hash (f k) = ak_key_hash k /\ ak_created_at (f k) = ak_created_at k /\
                        ak_last_used_at (f k) = ak_last_used_at k /\
                        ak_name (f k) = match uak_name i with Some n => n | None => ak_name k end /\
                        ak_is_active (f k) = match uak_is_active i with Some b => b | None => ak_is_active k end) /\
   (uak_name i <> None \/ uak_is_active i <> None) /\
   filter (fun k => ak_id k =? uak_id i) (rows (api_keys st)) <> [] /\
   updateApiKey i now st =
     (Ok (first (map f (filter (fun k => ak_id k =? uak_id i) (rows (api_keys st))))),
      set_api_keys (mkTable (map (fun k => if ak_id k =? uak_id i then f k else k)
                                 (rows (api_keys st))) (seq (api_keys st))) st)).
Proof.
  unfold updateApiKey, bind, select, update, throw, ret.
  destruct (filter (fun k => ak_id k =? uak_id i) (rows (api_keys st))) as [|k0 ks] eqn:Ef;
    [left; eexists; reflexivity|].
  destruct (uak_name i) as [n|] eqn:En, (uak_is_active i) as [b|] eqn:Eb;
    try (left; eexists; reflexivity);
    (match goal with |- context [existsb ?f ?l] => destruct (existsb f l) eqn:Ex end;
     [left; eexists; reflexivity|]);
    right;
    exists (fun k => mkApiKey (ak_id k) (ak_user_id k) (ak_key_hash k)
                (match uak_name i with Some n => n | None => ak_name k end)
                (match uak_is_active i with Some b => b | None => ak_is_active k end)
                (ak_created_at k) (ak_last_used_at k));
    rewrite ?En, ?Eb;
    (split; [intros k; simpl; repeat split; reflexivity|]);
    (split; [first [left; discriminate | right; discriminate]|]);
    (split; [discriminate|]); rewrite Ef; reflexivity.
Qed.

Lemma createVoice_cases i now st :
  let V := mkVoice (seq (voices st)) (cv_name i) (cv_identifier i) (cv_description i) now in
  (createVoice i now st = (Err UniqueViolation, set_voices (bump (voices st)) st) /\
   existsb (voice_clash V) (rows (voices st)) = true) \/
  (createVoice i now st = (Ok V, set_voices (push (voices st) V) st) /\
   existsb (voice_clash V) (rows (voices st)) = false).
Proof.
  intros V; unfold createVoice, insert; subst V.
  match goal with |- context [existsb ?f ?l] => destruct (existsb f l) end;
    [left|right]; split; reflexivity.
Qed.

Lemma createCallSession_cases i now st :
  let S := mkCallSession (seq (call_sessions st)) (ccs_twilio_call_id i) (ccs_user_id i)
                         (ccs_start_time i) None now in
  (createCallSession i now st = (Err OutOfRangeError, st) /\
   int4_ok (ccs_user_id i) = false) \/
  (createCallSession i now st = (Err NotFoundError, st) /\
   int4_ok (ccs_user_id i) = true /\ ~ In (ccs_user_id i) (map u_id (rows (users st)))) \/
  (In (ccs_user_id i) (map u_id (rows (users st))) /\ int4_ok (ccs_user_id i) = true /\
   ((createCallSession i now st =
       (Err UniqueViolation, set_call_sessions (bump (call_sessions st)) st) /\
     existsb (session_clash S) (rows (call_sessions st)) = true) \/
    (createCallSession i now st = (Ok S, set_call_sessions (push (call_sessions st) S) st) /\
     existsb (session_clash S) (rows (call_sessions st)) = false))).
Proof.
  intros S; unfold createCallSession, param_int4, bind, select, insert, throw, ret.
  destruct (int4_ok (ccs_user_id i)) eqn:Hi; [|left; split; reflexivity].
  right.
  destruct (filter (fun u => u_id u =? ccs_user_id i) (rows (users st))) as [|u us] eqn:Ef.
  - left; split; [reflexivity|split; [reflexivity|]].
    intros Hin; apply in_map_iff in Hin; destruct Hin as [u [Eu Hu]].
    assert (In u (filter (fun u => u_id u =? ccs_user_id i) (rows (users st))))
      by (apply filter_In; split; [exact Hu|apply Z.eqb_eq; exact Eu]).
    rewrite Ef in H; destruct H.
  - right; split; [|split; [reflexivity|]].
    + assert (Hu : In u (filter (fun u => u_id u =? ccs_user_id i) (rows (users st))))
        by (rewrite Ef; left; reflexivity).
      apply filter_In in Hu; destruct Hu as [Hu E]; apply Z.eqb_eq in E.
      rewrite <- E; apply in_map; exact Hu.
    + cbn [fst snd]; subst S.
      match goal with |- context [existsb ?f ?l] => destruct (existsb f l) end;
        [left|right]; split; reflexivity.
Qed.

Lemma endCallSession_cases i now st :
  (exists e, endCallSession i now st = (Err e, st)) \/
  (exists s, find_session st (ecs_id i) = Some s /\ cs_end_time s = None /\
   existsb (fun u => Nat.ltb 1 (count (session_same_twilio u)
              (map (fun r => if cs_id r =? ecs_id i then set_end_time (ecs_end_time i) r else r)
                   (rows (call_sessions st)))))
           (map (set_end_time (ecs_end_time i))
                (filter (fun r => cs_id r =? ecs_id i) (rows (call_sessions st)))) = false /\
   endCallSession i now st =
     (Ok (first (map (set_end_time (ecs_end_time i))
                   (filter (fun r => cs_id r =? ecs_id i) (rows (call_sessions st))))),
      set_call_sessions
        (mkTable (map (fun r => if cs_id r =? ecs_id i then set_end_time (ecs_end_time i) r else r)
                      (rows (call_sessions st))) (seq (call_sessions st))) st)).
Proof.
  unfold endCallSession, find_session, bind, select, update, throw, ret.
  destruct (filter (fun r => cs_id r =? ecs_id i) (rows (call_sessions st))) as [|s ss] eqn:Ef;
    [left; eexists; reflexivity|].
  destruct (cs_end_time s) eqn:Ee; [left; eexists; reflexivity|].
  cbn [fst snd].
  match goal with |- context [existsb ?f ?l] => destruct (existsb f l) eqn:Ex end;
    [left; eexists; reflexivity|].
  right; exists s; split; [reflexivity|split; [exact Ee|]].
  unfold set_end_time; rewrite Ef in *; split; [exact Ex|reflexivity].
Qed.

Lemma createTurn_cases i now st :
  let T := mkTurn (seq (turns st)) (ct_call_session_id i) (ct_role i) (ct_text i)
                  (ct_latency_ms i) now in
  (exists e, createTurn i now st = (Err e, st)) \/
  (exists s, find_session st (ct_call_session_id i) = Some s /\ cs_end_time s = None /\
   ((createTurn i now st = (Err UniqueViolation, set_turns (bump (turns st)) st) /\
     existsb (turn_clash T) (rows (turns st)) = true) \/
    (createTurn i now st = (Ok T, set_turns (push (turns st) T) st) /\
     existsb (turn_clash T) (rows (turns st)) = false))).
Proof.
  intros T; rewrite createTurn_session.
  destruct (int4_ok (ct_call_session_id i)); [|left; eexists; reflexivity].
  destruct (find_session st (ct_call_session_id i)) as [s|] eqn:Ef; [|left; eexists; reflexivity].
  destruct (cs_end_time s) eqn:Ee; [left; eexists; reflexivity|].
  destruct (latency_ok i); [|left; eexists; reflexivity].
  right; exists s; split; [reflexivity|split; [exact Ee|]].
  unfold insert; subst T.
  match goal with |- context [existsb ?f ?l] => destruct (existsb f l) end;
    [left|right]; split; reflexivity.
Qed.

Lemma map_update_proj {A B} (g : A -> B) (p : A -> bool) f l :
  (forall r, g (f r) = g r) -> map g (map (fun r => if p r then f r else r) l) = map g l.
Proof.
  intros H; rewrite map_map; apply map_ext; intros r; destruct (p r); [apply H|reflexivity].
Qed.

Lemma grows_refl l : grows l l.
Proof. exists []; rewrite app_nil_r; reflexivity. Qed.

Lemma grows_trans l1 l2 l3 : grows l1 l2 -> grows l2 l3 -> grows l1 l3.
Proof. intros [x ->] [y ->]; exists (x ++ y)%list; rewrite app_assoc; reflexivity. Qed.

Lemma grows_push {A} (id : A -> Z) (t : Table A) r :
  grows (map id (rows t)) (map id (rows (push t r))).
Proof. exists [id r]; unfold push; simpl; rewrite map_app; reflexivity. Qed.

Lemma grows_incl l l' : grows l l' -> incl l l'.
Proof. intros [x ->]; apply incl_appl, incl_refl. Qed.

Ltac grows_tac :=
  unfold ids_grow; cbn [subscription_plans users api_keys voices call_sessions turns
                       set_subscription_plans set_users set_api_keys set_voices
                       set_call_sessions set_turns bump rows snd];
  repeat split;
  first [ apply grows_refl
        | apply grows_push
        | cbn [rows]; rewrite map_update_proj by reflexivity; apply grows_refl ].

Lemma ids_grow_exec r now st : ids_grow st (exec r now st).
Proof.
  destruct r as [i|i|i|i|i|i|i|i|i]; simpl exec.
  - destruct (createUser_cases i now st) as [[H _]|[[H _]|[[H _]|[H _]]]]; rewrite H; grows_tac.
  - destruct (updateUser_cases i now st) as [[e H]|[_ H]]; rewrite H; grows_tac.
  - destruct (createSubscriptionPlan_cases i now st) as [[H _]|[_ [[e [_ H]]|[c [_ [[H _]|[H _]]]]]]]; rewrite H; grows_tac.
  - destruct (createApiKey_cases i now st) as [[e H]|[_ [[H _]|[H _]]]]; rewrite H; grows_tac.
  - destruct (updateApiKey_cases i now st) as [[e H]|[f [Hf [_ [_ H]]]]]; rewrite H; [grows_tac|].
    unfold ids_grow; cbn; repeat split; try apply grows_refl.
    rewrite map_update_proj by (intros k; apply Hf); apply grows_refl.
  - destruct (createVoice_cases i now st) as [[H _]|[H _]]; rewrite H; grows_tac.
  - destruct (createCallSession_cases i now st) as [[H _]|[[H _]|[_ [_ [[H _]|[H _]]]]]]; rewrite H; grows_tac.
  - destruct (endCallSession_cases i now st) as [[e H]|[s [_ [_ [_ H]]]]]; rewrite H; grows_tac.
  - destruct (createTurn_cases i now st) as [[e H]|[s [_ [_ [[H _]|[H _]]]]]]; rewrite H; grows_tac.
Qed.

Lemma ids_grow_refl st : ids_grow st st.
Proof. unfold ids_grow; repeat split; apply grows_refl. Qed.

Lemma ids_grow_trans s1 s2 s3 : ids_grow s1 s2 -> ids_grow s2 s3 -> ids_grow s1 s3.
Proof.
  intros (a1 & a2 & a3 & a4 & a5 & a6) (b1 & b2 & b3 & b4 & b5 & b6).
  repeat split; eapply grows_trans; eassumption.
Qed.

Lemma incl_push {A} (g : A -> Z) (t : Table A) r L :
  incl (map g (rows t)) L -> In (g r) L -> incl (map g (rows (push t r))) L.
Proof.
  intros H Hr; unfold push; simpl; rewrite map_app; apply incl_app; [exact H|].
  intros x [<-|[]]; exact Hr.
Qed.

Lemma refs_ok_exec r now st : refs_ok st -> refs_ok (exec r now st).
Proof.
  intros H.
  pose proof (ids_grow_exec r now st) as (_ & Gu & _ & _ & Gs & _).
  apply grows_incl in Gu; apply grows_incl in Gs.
  destruct H as (Hk & Hc & Ht).
  destruct r as [i|i|i|i|i|i|i|i|i]; simpl exec in *.
  - destruct (createUser_cases i now st) as [[E _]|[[E _]|[[E _]|[E _]]]]; rewrite E in *;
      (split; [|split]); cbn in *; try assumption; eapply incl_tran; eassumption.
  - destruct (updateUser_cases i now st) as [[e E]|[_ E]]; rewrite E in *;
      (split; [|split]); cbn in *; try assumption; eapply incl_tran; eassumption.
  - destruct (createSubscriptionPlan_cases i now st) as [[E _]|[_ [[e [_ E]]|[c [_ [[E _]|[E _]]]]]]]; rewrite E in *;
      (split; [|split]); cbn in *; assumption.
  - destruct (createApiKey_cases i now st) as [[e E]|[Hin [[E _]|[E _]]]]; rewrite E in *;
      (split; [|split]); cbn in *; try assumption.
    apply incl_push; assumption.
  - destruct (updateApiKey_cases i now st) as [[e E]|[f [Hf [_ [_ E]]]]]; rewrite E in *;
      (split; [|split]); cbn in *; try assumption.
    rewrite map_update_proj by (intros k; apply Hf); exact Hk.
  - destruct (createVoice_cases i now st) as [[E _]|[E _]]; rewrite E in *;
      (split; [|split]); cbn in *; assumption.
  - destruct (createCallSession_cases i now st) as [[E _]|[[E _]|[Hin [_ [[E _]|[E _]]]]]]; rewrite E in *;
      (split; [|split]); cbn in *; try assumption.
    + apply incl_push; assumption.
    + eapply incl_tran; [exact Ht|exact Gs].
  - destruct (endCallSession_cases i now st) as [[e E]|[s [_ [_ [_ E]]]]]; rewrite E in *;
      (split; [|split]); cbn in *; try assumption.
    + rewrite map_update_proj by reflexivity; exact Hc.
    + eapply incl_tran; [exact Ht|exact Gs].
  - destruct (createTurn_cases i now st) as [[e E]|[s [Hs [_ [[E _]|[E _]]]]]]; rewrite E in *;
      (split; [|split]); cbn in *; try assumption.
    apply incl_push; [exact Ht|].
    apply first_filter_In in Hs; destruct Hs as [Hs Ei]; apply Z.eqb_eq in Ei.
    cbn; rewrite <- Ei; apply in_map; exact Hs.
Qed.

Lemma refs_ok_reachable st : reachable st -> refs_ok st.
Proof.
  induction 1 as [|st r now _ IH]; [|apply refs_ok_exec; exact IH].
  unfold refs_ok; simpl; repeat split; intros x [].
Qed.

Lemma NoDup_push {A} (g : A -> string) (t : Table A) r :
  NoDup (map g (rows t)) -> ~ In (g r) (map g (rows t)) -> NoDup (map g (rows (push t r))).
Proof.
  intros H Hr; unfold push; simpl; rewrite map_app; simpl.
  apply NoDup_app; [exact H|repeat constructor; intros []|].
  intros x Hx [<-|[]]; exact (Hr Hx).
Qed.

Lemma filter_nil_not_In {A} (g : A -> string) (l : list A) (s : string) :
  filter (fun r => String.eqb (g r) s) l = [] -> ~ In s (map g l).
Proof.
  intros H Hin; apply in_map_iff in Hin; destruct Hin as [r [Er Hr]].
  assert (In r (filter (fun r => String.eqb (g r) s) l))
    by (apply filter_In; split; [exact Hr|apply String.eqb_eq; exact Er]).
  rewrite H in H0; destruct H0.
Qed.

Lemma existsb_false_not_In {A} (g : A -> string) (clash : A -> A -> bool) (l : list A) r :
  (forall x, String.eqb (g r) (g x) = true -> clash r x = true) ->
  existsb (clash r) l = false -> ~ In (g r) (map g l).
Proof.
  intros Hc H Hin; apply in_map_iff in Hin; destruct Hin as [x [Ex Hx]].
  pose proof (existsb_false_In _ _ _ H Hx) as E.
  rewrite Hc in E; [discriminate|]; rewrite Ex; apply String.eqb_refl.
Qed.

Lemma plan_names_unique_exec r now st : plan_names_unique st -> plan_names_unique (exec r now st).
Proof.
  intros H; unfold plan_names_unique in *.
  destruct r as [i|i|i|i|i|i|i|i|i];
    try (rewrite plans_frame; [exact H|intros ? ?; discriminate]).
  simpl exec.
  destruct (createSubscriptionPlan_cases i now st) as [[E _]|[Hf [[e [_ E]]|[c [_ [[E _]|[E _]]]]]]];
    rewrite E; cbn; [exact H|exact H|exact H|].
  apply NoDup_push; [exact H|].
  exact (filter_nil_not_In sp_name _ _ Hf).
Qed.

Lemma plan_names_unique_reachable st : reachable st -> plan_names_unique st.
Proof.
  induction 1 as [|st r now _ IH]; [constructor|apply plan_names_unique_exec; exact IH].
Qed.

Lemma twilio_ids_unique_exec r now st : twilio_ids_unique st -> twilio_ids_unique (exec r now st).
Proof.
  intros H; unfold twilio_ids_unique in *.
  destruct r as [i|i|i|i|i|i|i|i|i];
    try (rewrite sessions_frame; [exact H|intros ? ?; discriminate|intros ? ?; discriminate]);
    simpl exec.
  - destruct (createCallSession_cases i now st) as [[E _]|[[E _]|[_ [_ [[E _]|[E Ec]]]]]];
      rewrite E; cbn; [exact H|exact H|exact H|].
    apply NoDup_push; [exact H|].
    eapply existsb_false_not_In; [|exact Ec].
    intros x Ex; unfold session_clash, session_same_twilio; rewrite Ex, orb_true_r; reflexivity.
  - destruct (endCallSession_cases i now st) as [[e E]|[s [_ [_ [_ E]]]]]; rewrite E; cbn;
      [exact H|].
    rewrite map_update_proj by reflexivity; exact H.
Qed.

Lemma twilio_ids_unique_reachable st : reachable st -> twilio_ids_unique st.
Proof.
  induction 1 as [|st r now _ IH]; [constructor|apply twilio_ids_unique_exec; exact IH].
Qed.

(** The voices table is written by [createVoice] only. *)
Lemma voices_frame r now st :
  (forall i, r <> ReqCreateVoice i) -> voices (exec r now st) = voices st.
Proof.
  intros Hr.
  destruct r as [i|i|i|i|i|i|i|i|i];
    [ | | | | | exfalso; exact (Hr i eq_refl) | | | ];
    simpl exec;
    match goal with
    | |- voices (snd (?m st)) = _ =>
        enough (K : keeps (fun s => voices s = voices st) m) by exact (K st eq_refl)
    end;
    repeat keeps_step.
Qed.

Lemma voices_ok_exec r now st :
  serial_ok v_id (voices st) /\ voice_identifiers_unique st ->
  serial_ok v_id (voices (exec r now st)) /\ voice_identifiers_unique (exec r now st).
Proof.
  intros [Hs Hu]; unfold voice_identifiers_unique in *.
  destruct r as [i|i|i|i|i|i|i|i|i];
    try (rewrite voices_frame; [split; assumption|intros ? ?; discriminate]).
  simpl exec.
  destruct (createVoice_cases i now st) as [[E _]|[E Ec]]; rewrite E; cbn.
  - split; [apply serial_ok_bump; exact Hs|exact Hu].
  - split; [apply serial_ok_append; [exact Hs|reflexivity]|].
    apply NoDup_push; [exact Hu|].
    eapply existsb_false_not_In; [|exact Ec].
    intros x Ex; unfold voice_clash; rewrite Ex, orb_true_r; reflexivity.
Qed.

Lemma voices_ok_reachable st :
  reachable st -> serial_ok v_id (voices st) /\ voice_identifiers_unique st.
Proof.
  induction 1 as [|st r now _ IH]; [split; [apply serial_ok_empty|constructor]|].
  apply voices_ok_exec; exact IH.
Qed.



(** X2. No request deletes a row or changes a row's id: along any sequence
    of requests, the id column of every table only gets ids appended. *)
Theorem requests_only_append rs st : ids_grow st (exec_all rs st).
Proof.
  revert st; induction rs as [|[r now] rs IH]; intros st; simpl; [apply ids_grow_refl|].
  eapply ids_grow_trans; [apply ids_grow_exec|apply IH].
Qed.

(** X3. In every reachable store each API key and each call session belongs
    to a stored user and each turn to a stored call session, although the
    schema declares no foreign key: the handlers check the parent first and
    never delete rows. *)
Theorem reachable_references_exist st : reachable st -> refs_ok st.
Proof. apply refs_ok_reachable. Qed.

Lemma reachable_references_exist_witness : reachable open_store /\ refs_ok open_store.
Proof.
  assert (H : reachable open_store) by (apply reachable_exec_all, reachable_quota_store).
  split; [exact H|exact (reachable_references_exist open_store H)].
Defined.

(** X4. In every reachable store no two subscription plans share a name:
    the only writer of the table, [createSubscriptionPlan], refuses a
    name already present (the column itself is not unique). *)
Theorem reachable_plan_names_unique st : reachable st -> plan_names_unique st.
Proof. apply plan_names_unique_reachable. Qed.

Lemma reachable_plan_names_unique_witness :
  reachable quota_store /\ plan_names_unique quota_store.
Proof.
  split; [exact reachable_quota_store|].
  exact (reachable_plan_names_unique quota_store reachable_quota_store).
Defined.

(** X5. In every reachable store no two call sessions share a
    [twilio_call_id]. *)
Theorem reachable_twilio_ids_unique st : reachable st -> twilio_ids_unique st.
Proof. apply twilio_ids_unique_reachable. Qed.

Lemma reachable_twilio_ids_unique_witness :
  reachable open_store /\ twilio_ids_unique open_store.
Proof.
  assert (H : reachable open_store) by (apply reachable_exec_all, reachable_quota_store).
  split; [exact H|exact (reachable_twilio_ids_unique open_store H)].
Defined.

Lemma existsb_ext {A} (f g : A -> bool) l : (forall x, f x = g x) -> existsb f l = existsb g l.
Proof. intros H; induction l as [|x l IH]; simpl; [reflexivity|rewrite H, IH; reflexivity]. Qed.

Lemma existsb_in_map {A} (g : A -> string) (l : list A) s :
  existsb (fun x => String.eqb s (g x)) l = true <-> In s (map g l).
Proof.
  rewrite existsb_exists, in_map_iff; split.
  - intros [x [Hx E]]; apply String.eqb_eq in E; exists x; auto.
  - intros [x [E Hx]]; exists x; split; [exact Hx|apply String.eqb_eq; auto].
Qed.

(** An insert whose row has a fresh id clashes exactly when a unique text
    column does. *)
Lemma existsb_clash_unique {A} (id : A -> Z) (g : A -> string) (clash : A -> A -> bool)
    (t : Table A) r :
  serial_ok id t -> id r = seq t ->
  (forall x, clash r x = (id r =? id x) || String.eqb (g r) (g x)) ->
  existsb (clash r) (rows t) = true <-> In (g r) (map g (rows t)).
Proof.
  intros Hs Hr Hc; rewrite <- existsb_in_map.
  pose proof (serial_ok_fresh id t Hs) as F.
  rewrite (existsb_ext _ (fun x => (seq t =? id x) || String.eqb (g r) (g x)))
    by (intros x; rewrite Hc, Hr; reflexivity).
  clear Hc; induction (rows t) as [|x l IH]; simpl in *; [tauto|].
  apply orb_false_iff in F; destruct F as [F1 F2]; rewrite F1; simpl.
  rewrite orb_true_iff, orb_true_iff; specialize (IH F2); tauto.
Qed.

(** X6. [createVoice] relies on the unique [identifier] column: in a
    reachable store a voice whose identifier is taken is refused with the
    store's unique violation, which consumes an id of the sequence while
    storing nothing; a fresh identifier is stored with the next id.  Every
    reachable store holds each identifier at most once. *)
Theorem createVoice_identifier st i now :
  reachable st ->
  let V := mkVoice (seq (voices st)) (cv_name i) (cv_identifier i) (cv_description i) now in
  voice_identifiers_unique st /\
  (In (cv_identifier i) (map v_identifier (rows (voices st))) ->
     createVoice i now st =
       (Err UniqueViolation, set_voices (mkTable (rows (voices st)) (seq (voices st) + 1)) st)) /\
  (~ In (cv_identifier i) (map v_identifier (rows (voices st))) ->
     createVoice i now st =
       (Ok V, set_voices (mkTable (rows (voices st) ++ [V]) (seq (voices st) + 1)) st)).
Proof.
  intros Hr V; destruct (voices_ok_reachable st Hr) as [Hs Hu].
  split; [exact Hu|].
  assert (Hc := existsb_clash_unique v_id v_identifier voice_clash (voices st) V Hs eq_refl
                  (fun x => eq_refl)).
  destruct (createVoice_cases i now st) as [[E Ex]|[E Ex]]; fold V in E, Ex; rewrite E;
    rewrite Ex in Hc; cbn [v_identifier V] in Hc; split; intros Hin; try reflexivity.
  - exfalso; apply Hin; apply Hc; reflexivity.
  - apply Hc in Hin; discriminate.
Qed.

Lemma createVoice_identifier_witness :
  reachable voice_store /\
  (voice_identifiers_unique voice_store /\
   (In "alloy" (map v_identifier (rows (voices voice_store))) ->
      createVoice (mkCreateVoiceInput "Other" "alloy" None) 6 voice_store =
        (Err UniqueViolation,
         set_voices (mkTable (rows (voices voice_store)) (seq (voices voice_store) + 1)) voice_store)) /\
   (~ In "alloy" (map v_identifier (rows (voices voice_store))) ->
      createVoice (mkCreateVoiceInput "Other" "alloy" None) 6 voice_store =
        (Ok (mkVoice (seq (voices voice_store)) "Other" "alloy" None 6),
         set_voices (mkTable (rows (voices voice_store) ++
                                [mkVoice (seq (voices voice_store)) "Other" "alloy" None 6])
                             (seq (voices voice_store) + 1)) voice_store))).
Proof.
  assert (H : reachable voice_store) by (apply reachable_exec_all; constructor).
  split; [exact H|].
  exact (createVoice_identifier voice_store (mkCreateVoiceInput "Other" "alloy" None) 6 H).
Defined.

Lemma filter_name_nil {A} (g : A -> string) (l : list A) s :
  filter (fun r => String.eqb (g r) s) l = [] <-> ~ In s (map g l).
Proof.
  split; [apply filter_nil_not_In|].
  intros H; destruct (filter _ l) as [|x xs] eqn:E; [reflexivity|exfalso].
  assert (Hx : In x (filter (fun r => String.eqb (g r) s) l)) by (rewrite E; left; reflexivity).
  apply filter_In in Hx; destruct Hx as [Hx Ex]; apply String.eqb_eq in Ex.
  apply H; rewrite <- Ex; apply in_map; exact Hx.
Qed.

Lemma existsb_plan_clash_fresh st P :
  wf_store st -> sp_id P = seq (subscription_plans st) ->
  existsb (plan_clash P) (rows (subscription_plans st)) = false.
Proof.
  intros (Hp & _) Hid.
  rewrite <- (serial_ok_fresh sp_id _ Hp).
  apply existsb_ext; intros x; unfold plan_clash; rewrite Hid; reflexivity.
Qed.

Lemma plan_params_spec i :
  plan_params i =
  match numeric_in (csp_price i) with
  | None => Err InvalidTextRepresentation
  | Some v =>
      if limit_ok (csp_max_api_keys i) && limit_ok (csp_max_monthly_calls i) then
        match v with
        | NumNaN => Ok "NaN"
        | NumInf _ => Err NumericOverflow
        | NumDec m e =>
            if Z.abs (round_cents m e) <? 10 ^ 10 then Ok (cents_text (round_cents m e))
            else Err NumericOverflow
        end
      else Err OutOfRangeError
  end.
Proof.
  unfold plan_params, param_numeric, param_int4_opt, numeric_10_2, param_int4, limit_ok,
    bind, ret, throw.
  destruct (numeric_in (csp_price i)) as [v|]; [|reflexivity].
  destruct (csp_max_api_keys i) as [a|]; [destruct (int4_ok a)|].
  all: destruct (csp_max_monthly_calls i) as [b|]; [destruct (int4_ok b)|].
  all: destruct v as [|neg|m e]; cbn beta iota zeta; try reflexivity.
  all: destruct (Z.abs (round_cents m e) <? 10 ^ 10); reflexivity.
Qed.

Lemma createSubscriptionPlan_fresh st i now :
  reachable st ->
  ~ In (csp_name i) (map sp_name (rows (subscription_plans st))) ->
  let P c := mkPlan (seq (subscription_plans st)) (csp_name i) (csp_description i) c
                    (csp_max_api_keys i) (csp_max_monthly_calls i) now in
  createSubscriptionPlan i now st =
    match plan_params i with
    | Err e => (Err e, st)
    | Ok c => (Ok (plan_out (P c)),
               set_subscription_plans
                 (mkTable (rows (subscription_plans st) ++ [P c]) (seq (subscription_plans st) + 1)) st)
    end.
Proof.
  intros Hr Hin P; pose proof (reachable_wf st Hr) as Hwf.
  pose proof (filter_name_nil sp_name (rows (subscription_plans st)) (csp_name i)) as Hn.
  destruct (createSubscriptionPlan_cases i now st) as [[E Hf]|[Hf [[e [He E]]|[c [Hc [[E Ex]|[E Ex]]]]]]].
  - exfalso; apply Hf, Hn, Hin.
  - rewrite He; exact E.
  - pose proof (existsb_plan_clash_fresh st (P c) Hwf eq_refl) as F; unfold P in F; congruence.
  - rewrite Hc; exact E.
Qed.



Lemma dec_Q_nonneg m e : 0 <= m -> Qle 0 (dec_Q m e).
Proof.
  intros Hm; unfold dec_Q, Qle; destruct (0 <=? e) eqn:E; cbn [Qnum Qden inject_Z].
  - apply Z.leb_le in E; pose proof (Z.pow_nonneg 10 e ltac:(lia)); nia.
  - lia.
Qed.

Lemma js_to_string_nonneg x str q :
  js_number_to_string x str -> SFleb (S754_zero false) x = true ->
  numeric_value str = Some q -> Qle 0 q.
Proof.
  intros Hx Hnn Hq. destruct x as [b|b| |b m e]; cbn [js_number_to_string] in Hx.
  - subst str. vm_compute in Hq. injection Hq as <-. apply Qle_refl.
  - subst str. destruct b; vm_compute in Hq; discriminate.
  - discriminate.
  - destruct b; [discriminate|].
    destruct Hx as (s & n & k & (Hk & Hs & _) & ->).
    destruct (numeric_value_js_format s n k Hk Hs) as (q' & Hq' & Heq).
    change ("" ++ js_format s n k) with (js_format s n k) in Hq.
    rewrite Hq' in Hq. injection Hq as <-. rewrite Heq.
    apply dec_Q_nonneg. pose proof (Z.pow_nonneg 10 (k - 1) ltac:(lia)); lia.
Qed.

(** C8 (counterexample). The price 100000000 is a non-negative number with
    two decimals at most, and [100000000.toString()] is "100000000"; but it
    needs nine digits before the point, and the column [numeric(10, 2)]
    keeps eight: [createSubscriptionPlan] fails with NumericOverflow,
    writing nothing, so no price is returned at all. *)
Lemma createSubscriptionPlan_price_overflow_counterexample :
  let x := round_to_double (inject_Z 100000000) in
  js_number_to_string x "100000000" /\ SFleb (S754_zero false) x = true /\
  numeric_value "100000000" = Some (inject_Z 100000000) /\
  ~ In "Pro" (map sp_name (rows (subscription_plans quota_store))) /\
  createSubscriptionPlan (mkCreateSubscriptionPlanInput "Pro" None "100000000" None None) 50 quota_store
    = (Err NumericOverflow, quota_store).
Proof.
  intros x.
  assert (Ex : x = S754_finite false 6710886400000000 (-26)) by (vm_compute; reflexivity).
  split; [|split; [|split; [|split]]].
  - rewrite Ex; cbn [js_number_to_string].
    exists 1, 9, 1; split; [|vm_compute; reflexivity].
    split; [lia|split; [cbn; lia|split; [vm_compute; reflexivity|split]]].
    + intros s' n' k' Hk' _ _; exact Hk'.
    + intros s' n' _ _.
      apply Qle_trans with 0%Q; [|apply Qabs_nonneg].
      apply Qle_bool_imp_le; vm_compute; reflexivity.
  - rewrite Ex; vm_compute; reflexivity.
  - vm_compute; reflexivity.
  - vm_compute; intros [H|[]]; discriminate.
  - vm_compute; reflexivity.
Qed.

(** C8 (amended). Let the price [x] of [createSubscriptionPlan] be a
    non-negative double, bound as its text [x.toString()] of decimal value
    [q], for a new plan name and limits in the range of their columns.  If
    [q >= 10^8] the column [numeric(10, 2)] overflows: the call fails with
    NumericOverflow and writes nothing.  If [q] is [c] cents with
    [c < 10^10], the plan is stored with the text of [c] cents as its price
    and returned with a price equal to [x] (store as decimal text, then
    [parseFloat], gives [x] back); every answer of a following
    [getSubscriptionPlans] lists the plan with that same price, and that
    query always has an answer. *)
Theorem createSubscriptionPlan_price_round_trip st i now x q :
  reachable st ->
  ~ In (csp_name i) (map sp_name (rows (subscription_plans st))) ->
  limit_ok (csp_max_api_keys i) = true -> limit_ok (csp_max_monthly_calls i) = true ->
  js_number_to_string x (csp_price i) -> SFleb (S754_zero false) x = true ->
  numeric_value (csp_price i) = Some q ->
  let P c := mkPlan (seq (subscription_plans st)) (csp_name i) (csp_description i) c
                    (csp_max_api_keys i) (csp_max_monthly_calls i) now in
  (Qle (inject_Z (10 ^ 8)) q -> createSubscriptionPlan i now st = (Err NumericOverflow, st)) /\
  (forall c, Qeq q (c # 100) -> c < 10 ^ 10 ->
     createSubscriptionPlan i now st =
       (Ok (plan_out (P (cents_text c))),
        set_subscription_plans (push (subscription_plans st) (P (cents_text c))) st) /\
     SFeqb (spo_price (plan_out (P (cents_text c)))) x = true /\
     (exists out, getSubscriptionPlans (snd (createSubscriptionPlan i now st)) out) /\
     (forall out, getSubscriptionPlans (snd (createSubscriptionPlan i now st)) out ->
        exists answer, out = Ok answer /\ In (plan_out (P (cents_text c))) answer)).
Proof.
  intros Hr Hin Ha Hb Hx Hnn Hq P.
  pose proof (js_to_string_round_trip x _ q Hx Hnn Hq) as Hrt.
  pose proof (js_to_string_nonneg x _ q Hx Hnn Hq) as Hq0.
  unfold numeric_value in Hq.
  destruct (numeric_in (csp_price i)) as [[| |m e]|] eqn:En; try discriminate.
  injection Hq as <-.
  rewrite (createSubscriptionPlan_fresh st i now Hr Hin), plan_params_spec, En, Ha, Hb.
  fold P; cbn [andb].
  split.
  - intros Hl; pose proof (round_cents_large m e Hl) as Hc.
    replace (Z.abs (round_cents m e) <? 10 ^ 10) with false
      by (symmetry; apply Z.ltb_ge; lia).
    reflexivity.
  - intros c Hc Hlt.
    rewrite (round_cents_exact m e c Hc).
    assert (Hc0 : 0 <= c).
    { rewrite Hc in Hq0; unfold Qle in Hq0; cbn [Qnum Qden] in Hq0; lia. }
    replace (Z.abs c <? 10 ^ 10) with true by (symmetry; apply Z.ltb_lt; lia).
    cbn [snd].
    split; [reflexivity|split; [|split]].
    + cbn [plan_out P spo_price sp_price].
      rewrite parseFloat_cents_text by exact Hc0.
      rewrite (round_to_double_Qeq (c # 100) (dec_Q m e)) by (symmetry; exact Hc).
      exact Hrt.
    + eexists; exists (map plan_out (rows (subscription_plans
        (set_subscription_plans (mkTable (rows (subscription_plans st) ++ [P (cents_text c)])
                                         (seq (subscription_plans st) + 1)) st)))).
      split; reflexivity.
    + intros out [answer [-> Hp]]; exists answer; split; [reflexivity|].
      apply (Permutation_in _ Hp).
      apply in_map; cbn [subscription_plans set_subscription_plans rows].
      apply in_or_app; right; left; reflexivity.
Qed.

Lemma createSubscriptionPlan_price_round_trip_witness :
  let i := mkCreateSubscriptionPlanInput "Pro" None "0.5" None None in
  let x := round_to_double (1 # 2) in
  let P c := mkPlan (seq (subscription_plans quota_store)) "Pro" None c None None 50 in
  (reachable quota_store /\
   ~ In (csp_name i) (map sp_name (rows (subscription_plans quota_store))) /\
   limit_ok None = true /\
   js_number_to_string x "0.5" /\ SFleb (S754_zero false) x = true /\
   numeric_value "0.5" = Some (5 # 10)) /\
  ((Qle (inject_Z (10 ^ 8)) (5 # 10) ->
      createSubscriptionPlan i 50 quota_store = (Err NumericOverflow, quota_store)) /\
   (forall c, Qeq (5 # 10) (c # 100) -> c < 10 ^ 10 ->
      createSubscriptionPlan i 50 quota_store =
        (Ok (plan_out (P (cents_text c))),
         set_subscription_plans (push (subscription_plans quota_store) (P (cents_text c))) quota_store) /\
      SFeqb (spo_price (plan_out (P (cents_text c)))) x = true /\
      (exists out, getSubscriptionPlans (snd (createSubscriptionPlan i 50 quota_store)) out) /\
      (forall out, getSubscriptionPlans (snd (createSubscriptionPlan i 50 quota_store)) out ->
         exists answer, out = Ok answer /\ In (plan_out (P (cents_text c))) answer))).
Proof.
  intros i x P.
  assert (Ex : x = S754_finite false 4503599627370496 (-53)) by (vm_compute; reflexivity).
  assert (Hx : js_number_to_string x "0.5").
  { rewrite Ex; cbn [js_number_to_string].
    exists 5, 0, 1; split; [|vm_compute; reflexivity].
    split; [lia|split; [cbn; lia|split; [vm_compute; reflexivity|split]]].
    - intros s' n' k' Hk' _ _; exact Hk'.
    - intros s' n' _ _.
      apply Qle_trans with 0%Q; [|apply Qabs_nonneg].
      apply Qle_bool_imp_le; vm_compute; reflexivity. }
  assert (Hnn : SFleb (S754_zero false) x = true) by (rewrite Ex; vm_compute; reflexivity).
  assert (Hq : numeric_value "0.5" = Some (5 # 10)) by (vm_compute; reflexivity).
  assert (Hin : ~ In (csp_name i) (map sp_name (rows (subscription_plans quota_store))))
    by (vm_compute; intros [H|[]]; discriminate).
  split; [split; [exact reachable_quota_store|split; [exact Hin|split; [reflexivity|
           split; [exact Hx|split; [exact Hnn|exact Hq]]]]]|].
  exact (createSubscriptionPlan_price_round_trip quota_store i 50 x (5 # 10)
           reachable_quota_store Hin eq_refl eq_refl Hx Hnn Hq).
Defined.





Lemma filter_id_single {A} (id : A -> Z) l k :
  NoDup (map id l) -> In k l -> filter (fun x => id x =? id k) l = [k].
Proof.
  intros Hn Hk.
  induction l as [|a l IH]; [destruct Hk|].
  simpl in Hn; inversion Hn as [|? ? Hnot Hn']; subst.
  simpl; destruct (id a =? id k) eqn:E.
  - apply Z.eqb_eq in E.
    assert (a = k).
    { destruct Hk as [<-|Hk]; [reflexivity|].
      exfalso; apply Hnot; rewrite E; apply in_map; exact Hk. }
    subst a; f_equal.
    destruct (filter _ l) as [|b bs] eqn:Ef; [reflexivity|exfalso].
    assert (Hb : In b (filter (fun x => id x =? id k) l)) by (rewrite Ef; left; reflexivity).
    apply filter_In in Hb; destruct Hb as [Hb Eb]; apply Z.eqb_eq in Eb.
    apply Hnot; rewrite <- Eb; apply in_map; exact Hb.
  - destruct Hk as [<-|Hk]; [rewrite Z.eqb_refl in E; discriminate|].
    apply IH; assumption.
Qed.

Lemma map_update_single {A} (id : A -> Z) l k (f : A -> A) :
  NoDup (map id l) -> In k l ->
  map (fun x => if id x =? id k then f x else x) l =
  map (fun x => if id x =? id k then f k else x) l.
Proof.
  intros Hn Hk; apply map_ext_in; intros x Hx.
  destruct (id x =? id k) eqn:E; [|reflexivity].
  apply Z.eqb_eq in E; rewrite (NoDup_map_inj id l x k Hn Hx Hk E); reflexivity.
Qed.

Lemma count_replace {A} (id : A -> Z) (p : A -> bool) l k k' :
  NoDup (map id l) -> In k l ->
  (count p (map (fun x => if Z.eqb (id x) (id k) then k' else x) l) + (if p k then 1 else 0) =
   count p l + (if p k' then 1 else 0))%nat.
Proof.
  intros Hn Hk; induction l as [|a l IH]; [destruct Hk|].
  simpl in Hn; inversion Hn as [|? ? Hnot Hn']; subst.
  rewrite map_cons, !count_cons.
  destruct (id a =? id k) eqn:E.
  - apply Z.eqb_eq in E.
    assert (a = k).
    { destruct Hk as [<-|Hk]; [reflexivity|].
      exfalso; apply Hnot; rewrite E; apply in_map; exact Hk. }
    subst a.
    rewrite (map_ext_in _ (fun x => x)), map_id.
    + destruct (p k), (p k'); lia.
    + intros x Hx; destruct (id x =? id k) eqn:Ex; [|reflexivity].
      exfalso; apply Z.eqb_eq in Ex; apply Hnot; rewrite <- Ex; apply in_map; exact Hx.
  - destruct Hk as [<-|Hk]; [rewrite Z.eqb_refl in E; discriminate|].
    specialize (IH Hn' Hk); destruct (p a); lia.
Qed.

Lemma existsb_no_unique {A} (L M : list A) :
  existsb (fun u => Nat.ltb 1 (count (no_unique_column u) L)) M = false.
Proof.
  induction M as [|u M IH]; simpl; [reflexivity|].
  rewrite (count_none (no_unique_column u) L) by reflexivity; exact IH.
Qed.

(** The row [updateApiKey] writes for key [k]. *)
Lemma updateApiKey_existing st i now k :
  NoDup (map ak_id (rows (api_keys st))) -> In k (rows (api_keys st)) -> ak_id k = uak_id i ->
  (uak_name i <> None \/ uak_is_active i <> None) ->
  updateApiKey i now st =
    (Ok (Some (mkApiKey (ak_id k) (ak_user_id k) (ak_key_hash k)
                 (match uak_name i with Some n => n | None => ak_name k end)
                 (match uak_is_active i with Some b => b | None => ak_is_active k end)
                 (ak_created_at k) (ak_last_used_at k))),
     set_api_keys
       (mkTable (map (fun x => if ak_id x =? uak_id i then
                                  mkApiKey (ak_id k) (ak_user_id k) (ak_key_hash k)
                                    (match uak_name i with Some n => n | None => ak_name k end)
                                    (match uak_is_active i with Some b => b | None => ak_is_active k end)
                                    (ak_created_at k) (ak_last_used_at k)
                                else x) (rows (api_keys st)))
                (seq (api_keys st))) st).
Proof.
  intros Hn Hk Hid Hsome.
  unfold updateApiKey, bind, select, update, ret.
  rewrite <- Hid, (filter_id_single ak_id _ k Hn Hk).
  destruct (uak_name i) as [nm|], (uak_is_active i) as [b|];
    [| | |destruct Hsome as [H|H]; exfalso; apply H; reflexivity];
    cbn [fst snd]; rewrite existsb_no_unique;
    rewrite ?(filter_id_single ak_id _ k Hn Hk);
    (apply (f_equal2 pair); [reflexivity|];
     apply (f_equal (fun t => set_api_keys t st));
     apply (f_equal (fun r => mkTable r (seq (api_keys st))));
     apply map_ext_in; intros x Hx;
     destruct (Z.eqb_spec (ak_id x) (ak_id k)) as [E|E]; [|reflexivity];
     rewrite (NoDup_map_inj ak_id _ x k Hn Hx Hk E); reflexivity).
Qed.

Lemma filter_id_nil {A} (id : A -> Z) l x :
  ~ In x (map id l) -> filter (fun k => id k =? x) l = [].
Proof.
  induction l as [|a l IH]; intros H; simpl; [reflexivity|].
  destruct (Z.eqb_spec (id a) x) as [E|E].
  - exfalso; apply H; left; exact E.
  - apply IH; intros Hin; apply H; right; exact Hin.
Qed.

(** X10. In a reachable store, [updateApiKey] for an id in the range of
    the integer column with no stored key fails with NotFoundError (an id
    out of that range is refused when the query binds it, which this model
    leaves out), and for a stored key with neither [name] nor
    [is_active] given fails with the empty-[set] error; both write nothing.
    Otherwise only the row of that key is rewritten, with the given fields
    replaced and every other column (user, hash, timestamps) kept, and that
    row is returned. *)
Theorem updateApiKey_outcomes st i now :
  reachable st ->
  (int4_ok (uak_id i) = true -> ~ In (uak_id i) (map ak_id (rows (api_keys st))) ->
     updateApiKey i now st = (Err NotFoundError, st)) /\
  (In (uak_id i) (map ak_id (rows (api_keys st))) ->
     uak_name i = None -> uak_is_active i = None ->
     updateApiKey i now st = (Err NoValuesToSet, st)) /\
  (forall k, In k (rows (api_keys st)) -> ak_id k = uak_id i ->
     (uak_name i <> None \/ uak_is_active i <> None) ->
     let K := mkApiKey (ak_id k) (ak_user_id k) (ak_key_hash k)
                 (match uak_name i with Some n => n | None => ak_name k end)
                 (match uak_is_active i with Some b => b | None => ak_is_active k end)
                 (ak_created_at k) (ak_last_used_at k) in
     updateApiKey i now st =
       (Ok (Some K),
        set_api_keys (mkTable (map (fun x => if ak_id x =? uak_id i then K else x)
                                   (rows (api_keys st)))
                              (seq (api_keys st))) st)).
Proof.
  intros Hr; pose proof (reachable_wf st Hr) as (_ & _ & (_ & _ & Hn) & _).
  split; [|split].
  - intros _ Hin; unfold updateApiKey, bind, select, throw.
    rewrite (filter_id_nil ak_id _ _ Hin); reflexivity.
  - intros Hin En Eb; unfold updateApiKey, bind, select, throw.
    destruct (filter (fun k => ak_id k =? uak_id i) (rows (api_keys st))) as [|k0 ks] eqn:Ef.
    + exfalso; apply in_map_iff in Hin; destruct Hin as [k [Ek Hk]].
      assert (Hf : In k (filter (fun k => ak_id k =? uak_id i) (rows (api_keys st))))
        by (apply filter_In; split; [exact Hk|apply Z.eqb_eq; exact Ek]).
      rewrite Ef in Hf; destruct Hf.
    + rewrite En, Eb; reflexivity.
  - intros k Hk Hid Hsome K; exact (updateApiKey_existing st i now k Hn Hk Hid Hsome).
Qed.

Lemma updateApiKey_outcomes_witness :
  reachable key_store /\
  ((int4_ok 1 = true -> ~ In 1 (map ak_id (rows (api_keys key_store))) ->
      updateApiKey (mkUpdateApiKeyInput 1 None (Some false)) 30 key_store
        = (Err NotFoundError, key_store)) /\
   (In 1 (map ak_id (rows (api_keys key_store))) ->
      @None string = None -> Some false = None ->
      updateApiKey (mkUpdateApiKeyInput 1 None (Some false)) 30 key_store
        = (Err NoValuesToSet, key_store)) /\
   (forall k, In k (rows (api_keys key_store)) -> ak_id k = 1 ->
      (@None string <> None \/ Some false <> None) ->
      updateApiKey (mkUpdateApiKeyInput 1 None (Some false)) 30 key_store =
        (Ok (Some (mkApiKey (ak_id k) (ak_user_id k) (ak_key_hash k) (ak_name k) false
                            (ak_created_at k) (ak_last_used_at k))),
         set_api_keys (mkTable (map (fun x => if ak_id x =? 1 then
                                       mkApiKey (ak_id k) (ak_user_id k) (ak_key_hash k)
                                         (ak_name k) false (ak_created_at k) (ak_last_used_at k)
                                     else x) (rows (api_keys key_store)))
                               (seq (api_keys key_store))) key_store))).
Proof.
  assert (H : reachable key_store) by (apply reachable_exec_all, reachable_quota_store).
  split; [exact H|].
  exact (updateApiKey_outcomes key_store (mkUpdateApiKeyInput 1 None (Some false)) 30 H).
Defined.

(** X11. Activating or deactivating a stored key of a reachable store with
    [updateApiKey] changes the active-key count (the count [createApiKey]'s
    quota check compares with [max_api_keys]) of the key's owner by the
    change of that one key, and leaves every other user's count alone. *)
Theorem updateApiKey_active_count st k b now :
  reachable st -> In k (rows (api_keys st)) ->
  let st' := snd (updateApiKey (mkUpdateApiKeyInput (ak_id k) None (Some b)) now st) in
  active_key_count st' (ak_user_id k) =
    active_key_count st (ak_user_id k) - (if ak_is_active k then 1 else 0) + (if b then 1 else 0) /\
  (forall uid, uid <> ak_user_id k -> active_key_count st' uid = active_key_count st uid).
Proof.
  intros Hr Hk st'; pose proof (reachable_wf st Hr) as (_ & _ & (_ & _ & Hn) & _).
  assert (E : st' = set_api_keys
                      (mkTable (map (fun x => if ak_id x =? ak_id k then
                                      mkApiKey (ak_id k) (ak_user_id k) (ak_key_hash k) (ak_name k)
                                               b (ak_created_at k) (ak_last_used_at k) else x)
                                    (rows (api_keys st))) (seq (api_keys st))) st).
  { assert (Hs : @None string <> None \/ Some b <> None) by (right; discriminate).
    unfold st'; rewrite (updateApiKey_existing st (mkUpdateApiKeyInput (ak_id k) None (Some b))
                           now k Hn Hk eq_refl Hs);
    reflexivity. }
  rewrite E; clear E st'; unfold active_key_count; simpl.
  split; [|intros uid Hu];
    match goal with
    | |- Z.of_nat (count ?p _) = _ =>
        pose proof (count_replace ak_id p (rows (api_keys st)) k
                      (mkApiKey (ak_id k) (ak_user_id k) (ak_key_hash k) (ak_name k)
                               b (ak_created_at k) (ak_last_used_at k)) Hn Hk) as C
    end; cbn [ak_user_id ak_is_active] in C.
  - rewrite Z.eqb_refl in C.
    destruct (ak_is_active k), b; simpl in C; lia.
  - assert (Eu : (ak_user_id k =? uid) = false) by (apply Z.eqb_neq; congruence).
    rewrite Eu in C; simpl in C; lia.
Qed.

Lemma updateApiKey_active_count_witness :
  exists k, In k (rows (api_keys key_store)) /\
  (active_key_count (snd (updateApiKey (mkUpdateApiKeyInput (ak_id k) None (Some false)) 30 key_store))
                    (ak_user_id k) =
     active_key_count key_store (ak_user_id k) - (if ak_is_active k then 1 else 0) + 0 /\
   (forall uid, uid <> ak_user_id k ->
      active_key_count (snd (updateApiKey (mkUpdateApiKeyInput (ak_id k) None (Some false)) 30 key_store)) uid
      = active_key_count key_store uid)).
Proof.
  assert (H : reachable key_store) by (apply reachable_exec_all, reachable_quota_store).
  exists (mkApiKey 1 1 "h1" "key" true 20 None).
  assert (Hk : In (mkApiKey 1 1 "h1" "key" true 20 None) (rows (api_keys key_store)))
    by (vm_compute; left; reflexivity).
  split; [exact Hk|].
  exact (updateApiKey_active_count key_store _ false 30 H Hk).
Defined.




Lemma filter_id_cons {A} (id : A -> Z) l x :
  In x (map id l) -> exists y ys, filter (fun r => id r =? x) l = y :: ys.
Proof.
  intros Hin; apply in_map_iff in Hin; destruct Hin as [y [Ey Hy]].
  destruct (filter (fun r => id r =? x) l) as [|a ys] eqn:Ef; [|exists a, ys; reflexivity].
  exfalso; assert (Hf : In y (filter (fun r => id r =? x) l))
    by (apply filter_In; split; [exact Hy|apply Z.eqb_eq; exact Ey]).
  rewrite Ef in Hf; destruct Hf.
Qed.

(** X13. After [createApiKey] succeeds with key [K], listing the user's keys
    with [getApiKeysByUser] succeeds, and its answers are exactly the
    orderings of the user's earlier keys together with [K]. *)
Theorem getApiKeysByUser_after_createApiKey st i now K out :
  fst (createApiKey i now st) = Ok K ->
  (getApiKeysByUser (cak_user_id i) (snd (createApiKey i now st)) out <->
   exists answer, out = Ok answer /\
     Permutation (filter (fun k => ak_user_id k =? cak_user_id i) (rows (api_keys st)) ++ [K])
                 answer).
Proof.
  intros Hok.
  destruct (createApiKey_cases i now st) as [[e E]|[Hu [[E _]|[E _]]]];
    rewrite E in *; cbn [fst snd] in *; try discriminate.
  injection Hok as <-.
  unfold getApiKeysByUser; cbn [set_api_keys users api_keys push rows].
  destruct (filter_id_cons u_id _ _ Hu) as [y [ys ->]].
  rewrite filter_app; cbn [filter ak_user_id]; rewrite Z.eqb_refl; reflexivity.
Qed.

Lemma getApiKeysByUser_after_createApiKey_witness :
  fst (createApiKey (key_input "h1") 20 quota_store) = Ok (mkApiKey 1 1 "h1" "key" true 20 None) /\
  (getApiKeysByUser 1 (snd (createApiKey (key_input "h1") 20 quota_store))
                    (Ok [mkApiKey 1 1 "h1" "key" true 20 None]) <->
   exists answer, Ok [mkApiKey 1 1 "h1" "key" true 20 None] = Ok answer /\
     Permutation (filter (fun k => ak_user_id k =? 1) (rows (api_keys quota_store)) ++
                  [mkApiKey 1 1 "h1" "key" true 20 None]) answer).
Proof.
  assert (H : fst (createApiKey (key_input "h1") 20 quota_store)
              = Ok (mkApiKey 1 1 "h1" "key" true 20 None)) by (vm_compute; reflexivity).
  split; [exact H|].
  exact (getApiKeysByUser_after_createApiKey quota_store (key_input "h1") 20 _ _ H).
Defined.

(** X14. After [createCallSession] succeeds with session [S], listing the
    user's sessions with [getCallSessionsByUser] succeeds, and its answers
    are exactly the orderings of the user's earlier sessions together with
    [S]. *)
Theorem getCallSessionsByUser_after_createCallSession st i now S out :
  fst (createCallSession i now st) = Ok S ->
  (getCallSessionsByUser (ccs_user_id i) (snd (createCallSession i now st)) out <->
   exists answer, out = Ok answer /\
     Permutation (filter (fun s => cs_user_id s =? ccs_user_id i) (rows (call_sessions st)) ++ [S])
                 answer).
Proof.
  intros Hok.
  destruct (createCallSession_cases i now st) as [[E _]|[[E _]|[Hu [_ [[E _]|[E _]]]]]];
    rewrite E in *; cbn [fst snd] in *; try discriminate.
  injection Hok as <-.
  unfold getCallSessionsByUser; cbn [set_call_sessions users call_sessions push rows].
  destruct (filter_id_cons u_id _ _ Hu) as [y [ys ->]]; cbn [firstn].
  rewrite filter_app; cbn [filter cs_user_id]; rewrite Z.eqb_refl; reflexivity.
Qed.

Lemma getCallSessionsByUser_after_createCallSession_witness :
  fst (createCallSession (mkCreateCallSessionInput "CA1" 1 30) 31 quota_store)
    = Ok (mkCallSession 1 "CA1" 1 30 None 31) /\
  (getCallSessionsByUser 1 (snd (createCallSession (mkCreateCallSessionInput "CA1" 1 30) 31 quota_store))
                         (Ok [mkCallSession 1 "CA1" 1 30 None 31]) <->
   exists answer, Ok [mkCallSession 1 "CA1" 1 30 None 31] = Ok answer /\
     Permutation (filter (fun s => cs_user_id s =? 1) (rows (call_sessions quota_store)) ++
                  [mkCallSession 1 "CA1" 1 30 None 31]) answer).
Proof.
  assert (H : fst (createCallSession (mkCreateCallSessionInput "CA1" 1 30) 31 quota_store)
              = Ok (mkCallSession 1 "CA1" 1 30 None 31)) by (vm_compute; reflexivity).
  split; [exact H|].
  exact (getCallSessionsByUser_after_createCallSession quota_store _ 31 _ _ H).
Defined.

(** X15. After [createTurn] succeeds with turn [T], reading the session's
    turns with [getTurnsByCallSession] succeeds, and its answers are exactly
    the [created_at]-sorted orderings of the session's earlier turns
    together with [T]. *)
Theorem getTurnsByCallSession_after_createTurn st i now T out :
  fst (createTurn i now st) = Ok T ->
  (getTurnsByCallSession (ct_call_session_id i) (snd (createTurn i now st)) out <->
   exists answer, out = Ok answer /\
     order_by_created_at_asc
       (filter (fun t => t_call_session_id t =? ct_call_session_id i) (rows (turns st)) ++ [T])
       answer).
Proof.
  intros Hok.
  destruct (createTurn_cases i now st) as [[e E]|[s [Hs [_ [[E _]|[E _]]]]]];
    rewrite E in *; cbn [fst snd] in *; try discriminate.
  injection Hok as <-.
  unfold getTurnsByCallSession, find_session in *; cbn [set_turns call_sessions turns push rows].
  destruct (filter _ (rows (call_sessions st))); [discriminate|].
  rewrite filter_app; cbn [filter t_call_session_id]; rewrite Z.eqb_refl; reflexivity.
Qed.

Lemma getTurnsByCallSession_after_createTurn_witness :
  fst (createTurn (mkCreateTurnInput 1 RoleUser (Some "hi") None) 50 open_store)
    = Ok (mkTurn 1 1 RoleUser (Some "hi") None 50) /\
  (getTurnsByCallSession 1 (snd (createTurn (mkCreateTurnInput 1 RoleUser (Some "hi") None) 50 open_store))
                         (Ok [mkTurn 1 1 RoleUser (Some "hi") None 50]) <->
   exists answer, Ok [mkTurn 1 1 RoleUser (Some "hi") None 50] = Ok answer /\
     order_by_created_at_asc
       (filter (fun t => t_call_session_id t =? 1) (rows (turns open_store)) ++
        [mkTurn 1 1 RoleUser (Some "hi") None 50]) answer).
Proof.
  assert (H : fst (createTurn (mkCreateTurnInput 1 RoleUser (Some "hi") None) 50 open_store)
              = Ok (mkTurn 1 1 RoleUser (Some "hi") None 50)) by (vm_compute; reflexivity).
  split; [exact H|].
  exact (getTurnsByCallSession_after_createTurn open_store _ 50 _ _ H).
Defined.

Lemma filter_id_le1 {A} (id : A -> Z) l c :
  NoDup (map id l) -> (List.length (filter (fun r => Z.eqb (id r) c) l) <= 1)%nat.
Proof.
  induction l as [|a l IH]; intros Hn; simpl; [lia|].
  simpl in Hn; inversion Hn as [|? ? Hnot Hn']; subst.
  destruct (Z.eqb_spec (id a) c) as [E|E]; simpl; [|exact (IH Hn')].
  rewrite (filter_id_nil id l c); [simpl; lia|].
  rewrite <- E; exact Hnot.
Qed.

Lemma users_left_join_plans_fst us ps :
  NoDup (map sp_id ps) -> map fst (users_left_join_plans us ps) = us.
Proof.
  intros Hn; induction us as [|u us IH]; [reflexivity|].
  unfold users_left_join_plans in *; cbn [flat_map]; rewrite map_app, IH.
  destruct (u_subscription_plan_id u) as [pid|].
  - pose proof (filter_id_le1 sp_id ps pid Hn) as L.
    destruct (filter (fun p => sp_id p =? pid) ps) as [|p [|q qs]]; simpl in *;
      [reflexivity|reflexivity|lia].
  - assert (E : filter (fun _ : SubscriptionPlan => false) ps = [])
      by (clear; induction ps; simpl; auto).
    rewrite E; reflexivity.
Qed.

(** X16. In a reachable store [getUsers] succeeds and its answers are
    exactly the orderings of the stored users: the left join with the plans
    drops no user (also one whose plan id is null or names no stored plan)
    and repeats none, plan ids being unique. *)
Theorem getUsers_each_user_once st out :
  reachable st ->
  (getUsers st out <-> exists answer, out = Ok answer /\ Permutation (rows (users st)) answer).
Proof.
  intros Hr; pose proof (reachable_wf st Hr) as ((_ & _ & Hn) & _).
  unfold getUsers; rewrite (users_left_join_plans_fst _ _ Hn); reflexivity.
Qed.

Lemma getUsers_each_user_once_witness :
  reachable two_users_store /\
  (getUsers two_users_store (Ok (rows (users two_users_store))) <->
   exists answer, Ok (rows (users two_users_store)) = Ok answer /\
     Permutation (rows (users two_users_store)) answer).
Proof.
  assert (H : reachable two_users_store) by (apply reachable_exec_all, reachable_quota_store).
  split; [exact H|].
  exact (getUsers_each_user_once two_users_store _ H).
Defined.

(** The turns table is written by [createTurn] only. *)
Lemma turns_frame r now st :
  (forall i, r <> ReqCreateTurn i) -> turns (exec r now st) = turns st.
Proof.
  intros Hr.
  destruct r as [i|i|i|i|i|i|i|i|i];
    [ | | | | | | | | exfalso; exact (Hr i eq_refl) ];
    simpl exec;
    match goal with
    | |- turns (snd (?m st)) = _ =>
        enough (K : keeps (fun s => turns s = turns st) m) by exact (K st eq_refl)
    end;
    repeat keeps_step.
Qed.

Lemma session_turns_exec_ended st r now id s t :
  find_session st id = Some s -> cs_end_time s = Some t ->
  filter (fun x => t_call_session_id x =? id) (rows (turns (exec r now st))) =
  filter (fun x => t_call_session_id x =? id) (rows (turns st)).
Proof.
  intros Hs Ht.
  destruct r as [i|i|i|i|i|i|i|i|i];
    try (rewrite turns_frame; [reflexivity|intros j; discriminate]).
  simpl exec.
  destruct (createTurn_cases i now st) as [[e E]|[s' [Hs' [He [[E _]|[E _]]]]]];
    rewrite E; cbn [snd set_turns turns bump push rows]; try reflexivity.
  rewrite filter_app; cbn [filter t_call_session_id].
  destruct (Z.eqb_spec (ct_call_session_id i) id) as [Ei|Ei].
  - exfalso; rewrite Ei, Hs in Hs'; injection Hs' as <-; congruence.
  - rewrite app_nil_r; reflexivity.
Qed.

(** X17. Once a call session has ended, no sequence of requests changes it
    or the list of its turns: [endCallSession] refuses to end it again and
    [createTurn] refuses to add a turn to it. *)
Theorem ended_session_frozen rs st id s t :
  find_session st id = Some s -> cs_end_time s = Some t ->
  find_session (exec_all rs st) id = Some s /\
  filter (fun x => t_call_session_id x =? id) (rows (turns (exec_all rs st))) =
  filter (fun x => t_call_session_id x =? id) (rows (turns st)).
Proof.
  intros Hs Ht; revert st Hs; induction rs as [|[r now] rs IH]; intros st Hs; simpl;
    [split; [exact Hs|reflexivity]|].
  destruct (IH (exec r now st) (find_session_exec_ended st r now id s t Hs Ht)) as [H1 H2].
  split; [exact H1|rewrite H2; exact (session_turns_exec_ended st r now id s t Hs Ht)].
Qed.

Lemma ended_session_frozen_witness :
  let rs := [(ReqCreateTurn (mkCreateTurnInput 1 RoleUser (Some "late") None), 50);
             (ReqEndCallSession (mkEndCallSessionInput 1 60), 60)] in
  find_session ended_store 1 = Some (mkCallSession 1 "CA1" 1 30 (Some 40) 31) /\
  find_session (exec_all rs ended_store) 1 = Some (mkCallSession 1 "CA1" 1 30 (Some 40) 31) /\
  filter (fun x => t_call_session_id x =? 1) (rows (turns (exec_all rs ended_store))) =
  filter (fun x => t_call_session_id x =? 1) (rows (turns ended_store)).
Proof.
  intros rs.
  assert (H : find_session ended_store 1 = Some (mkCallSession 1 "CA1" 1 30 (Some 40) 31))
    by (vm_compute; reflexivity).
  split; [exact H|].
  exact (ended_session_frozen rs ended_store 1 _ 40 H eq_refl).
Defined.
